(** * TaskBound: state rehydration, auto-advance and the live tick reducer

    Shallow embedding of
    - the state helpers (the second half of [src/pwa/src/components/EditModal.tsx]:
      [ensureTaskDefaults], [realignTaskStatuses], [autoAdvance],
      [rehydrateState], [ensureAlignedTasks], [createEmptyState]);
    - the reducer of [src/src/renderer/store/state.ts] (the extended variant,
      lines 481-786, plus the [addTime] case of the first variant), and the
      store's timer ([dispatchTick]) and [deleteTasks] callback;
    - [handleMakeActive] of [src/src/renderer/App.tsx];
    - [splitSeconds] and [combineToSeconds] of [src/src/renderer/utils/time.ts]
      and the duration fields of the two [EditModal] components.

    Modelling choices:
    - a timestamp (a [Date] or the ISO string it prints to) is its number of
      milliseconds since the epoch, a [Z]; [toISOString] is injective, so string
      comparison of two stamps is comparison of the instants;
    - the UTC date key [iso.slice(0, 10)] / [toISODateKey] is the day number
      [ms / 86400000] (floor division), again injective on day keys;
    - an optional field ([x?: T], possibly [undefined] or [null] in a persisted
      JSON document) is an [option]; [??] is [match .. with None => default];
    - [typeof x === 'number'] on an optional number is [x <> None]. *)

From Stdlib Require Import ZArith List String Ascii Bool Lia Sorted Permutation.
Import ListNotations.
Open Scope Z_scope.

(** ** Data model ([src/src/shared/types.ts]) *)

Definition Instant := Z.

(** [toISODateKey] / [completionIso.slice(0, 10)]: the UTC calendar day. *)
Definition dateKey (ms : Instant) : Z := ms / 86400000.

Inductive TaskStatus := pending | in_progress | completed | struck.

Inductive TaskHistoryType := manual_complete | auto_complete | add_time.

Record TaskHistoryEntry := mkEntry {
  htype : TaskHistoryType;
  amountSeconds : option Z;
  at_ : Instant
}.

Record Task := mkTask {
  id : string;
  title : string;
  createdAt : Instant;
  updatedAt : Instant;
  completedAt : option Instant;
  timeAssignedSeconds : option Z;
  remainingSeconds : option Z;
  status : option TaskStatus;   (* absent in documents of older schemas *)
  isPaused : option bool;       (* extended variant only *)
  history : list TaskHistoryEntry
}.

Record StatsSnapshot := mkStats {
  totalCompleted : Z;
  todayCompleted : Z;
  lastCompletionDate : option Z
}.

Record MetaState := mkMeta {
  lastSavedAt : Instant;
  appVersion : string
}.

Record Preferences := mkPrefs { alwaysOnTop : bool }.

Record AppState := mkState {
  score : Z;
  tasks : list Task;
  stats : StatsSnapshot;
  meta : MetaState;
  preferences : Preferences
}.

(** A persisted document as [rehydrateState] receives it: every top-level
    field may be missing ([rawState.score ?? 0], [rawState.stats?.x ?? 0],
    [rawState.meta?.lastSavedAt ?? ...], [rawState.preferences?.alwaysOnTop]). *)
Record RawStats := mkRawStats {
  raw_totalCompleted : option Z;
  raw_todayCompleted : option Z;
  raw_lastCompletionDate : option Z
}.

Record RawState := mkRaw {
  raw_score : option Z;
  raw_tasks : option (list Task);
  raw_stats : option RawStats;
  raw_lastSavedAt : option Instant;
  raw_alwaysOnTop : option bool
}.

(** The document written back by the persistence layer for a state. *)
Definition to_raw (s : AppState) : RawState :=
  mkRaw (Some (score s)) (Some (tasks s))
    (Some (mkRawStats (Some (totalCompleted (stats s)))
                      (Some (todayCompleted (stats s)))
                      (lastCompletionDate (stats s))))
    (Some (lastSavedAt (meta s))) (Some (alwaysOnTop (preferences s))).

Definition dflt {A} (d : A) (o : option A) : A :=
  match o with Some x => x | None => d end.

(** ** Object spreads [{ ...task, f: v }] *)

Definition with_status (t : Task) (s : TaskStatus) : Task :=
  mkTask (id t) (title t) (createdAt t) (updatedAt t) (completedAt t)
    (timeAssignedSeconds t) (remainingSeconds t) (Some s) (isPaused t) (history t).

Definition with_paused (t : Task) (p : bool) (now : Instant) : Task :=
  mkTask (id t) (title t) (createdAt t) now (completedAt t)
    (timeAssignedSeconds t) (remainingSeconds t) (status t) (Some p) (history t).

(** ** Generic list helpers *)

(** [Array.prototype.findIndex], [None] for [-1]. *)
Fixpoint findIndex {A} (p : A -> bool) (l : list A) : option nat :=
  match l with
  | [] => None
  | x :: r => if p x then Some O else option_map S (findIndex p r)
  end.

(** [tasks[i] = x] for an index in range. *)
Fixpoint replace_nth {A} (i : nat) (x : A) (l : list A) : list A :=
  match l, i with
  | [], _ => []
  | _ :: r, O => x :: r
  | y :: r, S j => y :: replace_nth j x r
  end.

(** [arr.map((x, index) => ...)]. *)
Fixpoint map_index_from {A B} (f : nat -> A -> B) (k : nat) (l : list A) : list B :=
  match l with
  | [] => []
  | x :: r => f k x :: map_index_from f (S k) r
  end.

Definition map_index {A B} (f : nat -> A -> B) (l : list A) : list B :=
  map_index_from f O l.

(** ** State helpers (PWA [EditModal.tsx], lines 205-378) *)

Definition is_terminal (t : Task) : bool :=
  match status t with
  | Some completed | Some struck => true
  | _ => false
  end.

Definition is_struck (t : Task) : bool :=
  match status t with Some struck => true | _ => false end.

Definition is_paused (t : Task) : bool :=
  match isPaused t with Some true => true | _ => false end.

(** [task.remainingSeconds ?? task.timeAssignedSeconds ?? 0] *)
Definition effective_remaining (t : Task) : Z :=
  match remainingSeconds t with
  | Some r => r
  | None => dflt 0 (timeAssignedSeconds t)
  end.

(** [ensureTaskDefaults]: clone, default the status, derive the remaining
    time from the budget, copy the history entries. *)
Definition ensureTaskDefaults (t : Task) : Task :=
  let st := Some (dflt pending (status t)) in
  let rem := match timeAssignedSeconds t, remainingSeconds t with
             | Some a, None => Some a
             | _, r => r
             end in
  mkTask (id t) (title t) (createdAt t) (updatedAt t) (completedAt t)
    (timeAssignedSeconds t) rem st (isPaused t) (map (fun e => e) (history t)).

Definition createEmptyState (appVersion' : string) (now : Instant) : AppState :=
  mkState 0 [] (mkStats 0 0 None) (mkMeta now appVersion') (mkPrefs true).

Definition findNextActiveIndex (ts : list Task) : option nat :=
  findIndex (fun t => negb (is_terminal t)) ts.

(** [realignTaskStatuses]: the [map] with its mutable [hasActive] flag. *)
Fixpoint realign_go (hasActive : bool) (ts : list Task) : list Task :=
  match ts with
  | [] => []
  | t :: r =>
      if is_terminal t then t :: realign_go hasActive r
      else if hasActive then with_status t pending :: realign_go true r
      else with_status t (if 0 <? effective_remaining t then in_progress else pending)
             :: realign_go true r
  end.

Definition realignTaskStatuses (ts : list Task) : list Task := realign_go false ts.

Definition ensureAlignedTasks (ts : list Task) : list Task :=
  realignTaskStatuses (map ensureTaskDefaults ts).

(** *** [autoAdvance] *)

Record AutoAdvanceResult := mkAuto { res_tasks : list Task; res_stats : StatsSnapshot }.

(** The variables of the [while] loop. *)
Record Loop := mkLoop {
  l_tasks : list Task;
  l_stats : StatsSnapshot;
  secondsRemaining : Z
}.

Inductive LoopStep := Break (l : Loop) | Continue (l : Loop).

(** The strike branch: [remainingSeconds = 0], [struck], stamps, history. *)
Definition strike_task (t : Task) (remaining : Z) (now : Instant) : Task :=
  mkTask (id t) (title t) (createdAt t) now (Some now)
    (timeAssignedSeconds t) (Some 0) (Some struck) (isPaused t)
    (history t ++ [mkEntry auto_complete (Some remaining) now]).

(** The partial branch: [remainingSeconds = updatedRemaining], [in_progress]. *)
Definition partial_task (t : Task) (updatedRemaining : Z) (now : Instant) : Task :=
  mkTask (id t) (title t) (createdAt t) now (completedAt t)
    (timeAssignedSeconds t) (Some updatedRemaining) (Some in_progress) (isPaused t)
    (history t).

(** The statistics update of the strike branch. *)
Definition bump_stats (st : StatsSnapshot) (todayKey : Z) : StatsSnapshot :=
  let same := match lastCompletionDate st with Some d => d =? todayKey | None => false end in
  if same
  then mkStats (totalCompleted st + 1) (todayCompleted st + 1) (lastCompletionDate st)
  else mkStats (totalCompleted st + 1) 1 (Some todayKey).

(** One pass of the loop body, the [while (secondsRemaining > 0)] test
    included: [Break] leaves the loop, [Continue] runs the test again. *)
Definition loop_body (now : Instant) (l : Loop) : LoopStep :=
  let ts := l_tasks l in
  let secs := secondsRemaining l in
  if secs <=? 0 then Break l else
  match findNextActiveIndex ts with
  | None => Break l
  | Some i =>
      match nth_error ts i with
      | None => Break l
      | Some task =>
          let remaining := effective_remaining task in
          if remaining <=? 0 then Break (mkLoop (replace_nth i task ts) (l_stats l) secs)
          else if remaining <=? secs then
            Continue (mkLoop (replace_nth i (strike_task task remaining now) ts)
                             (bump_stats (l_stats l) (dateKey now))
                             (secs - remaining))
          else
            Continue (mkLoop (replace_nth i (partial_task task (remaining - secs) now) ts)
                             (l_stats l) 0)
      end
  end.

Fixpoint run_loop (fuel : nat) (now : Instant) (l : Loop) : option Loop :=
  match fuel with
  | O => None
  | S f =>
      match loop_body now l with
      | Break l' => Some l'
      | Continue l' => run_loop f now l'
      end
  end.

(** [autoAdvance]. The loop runs at most [length tasks + 2] passes (one
    strike per task, then a partial pass or a stop): [C9] proves that this
    fuel never runs out, so the [None] branch is unreachable. *)
Definition autoAdvance (state : AppState) (elapsedSeconds : Z) (now : Instant)
  : AutoAdvanceResult :=
  let l0 := mkLoop (map ensureTaskDefaults (tasks state)) (stats state) elapsedSeconds in
  let lf := match run_loop (S (S (List.length (tasks state)))) now l0 with
            | Some l => l
            | None => l0
            end in
  mkAuto (realignTaskStatuses (l_tasks lf)) (l_stats lf).

(** *** [rehydrateState] *)

Definition base_stats (raw : RawState) : StatsSnapshot :=
  match raw_stats raw with
  | Some rs => mkStats (dflt 0 (raw_totalCompleted rs)) (dflt 0 (raw_todayCompleted rs))
                       (raw_lastCompletionDate rs)
  | None => mkStats 0 0 None
  end.

Definition baseState (raw : RawState) (appVersion' : string) (now : Instant) : AppState :=
  mkState (dflt 0 (raw_score raw))
    (match raw_tasks raw with Some ts => map ensureTaskDefaults ts | None => [] end)
    (base_stats raw)
    (mkMeta (dflt now (raw_lastSavedAt raw)) appVersion')
    (mkPrefs (dflt true (raw_alwaysOnTop raw))).

(** [Math.max(0, Math.floor((now - lastSaved) / 1000))] *)
Definition elapsed_seconds (now lastSaved : Instant) : Z :=
  Z.max 0 ((now - lastSaved) / 1000).

Definition rehydrateState (raw : RawState) (appVersion' : string) (now : Instant) : AppState :=
  let b := baseState raw appVersion' now in
  let elapsedSeconds := elapsed_seconds now (lastSavedAt (meta b)) in
  let nextState :=
    if 0 <? elapsedSeconds then
      let auto := autoAdvance b elapsedSeconds now in
      mkState (score b) (res_tasks auto) (res_stats auto) (meta b) (preferences b)
    else b in
  mkState (score nextState) (realignTaskStatuses (tasks nextState)) (stats nextState)
    (mkMeta now appVersion') (mkPrefs (alwaysOnTop (preferences nextState))).

(** ** The reducer ([src/src/renderer/store/state.ts], extended variant) *)

Inductive AppAction :=
  | hydrate (payload : AppState)
  | tick (now : Instant)
  | addTask (newId : string) (title' : string) (seconds : option Z) (now : Instant)
      (* [newId] is the value [uuid()] returns *)
  | manualComplete (now : Instant)
  | addTime (taskId : string) (seconds : Z) (now : Instant)
  | updateTask (taskId : string) (title' : string) (seconds : option Z) (now : Instant)
  | deleteTask (taskId : string) (now : Instant)
  | reorderTasks (orderedTaskIds : list string) (now : Instant)
  | syncMeta (lastSavedAt' : Instant) (appVersion' : string)
  | setAlwaysOnTop (value : bool)
  | pauseTask (taskId : string) (now : Instant)
  | resumeTask (taskId : string) (now : Instant).

Definition findActiveTaskIndex (ts : list Task) : option nat :=
  findIndex (fun t => negb (is_terminal t)) ts.

Definition updateStatsOnCompletion (state : AppState) (completionIso : Instant) : StatsSnapshot :=
  let dateKey' := dateKey completionIso in
  let todayCompleted' :=
    match lastCompletionDate (stats state) with
    | Some d => if d =? dateKey' then todayCompleted (stats state) + 1 else 1
    | None => 1
    end in
  mkStats (totalCompleted (stats state) + 1) todayCompleted' (Some dateKey').

Definition with_tasks (s : AppState) (ts : list Task) : AppState :=
  mkState (score s) ts (stats s) (meta s) (preferences s).

(** [{ ...state, tasks, meta: { ...state.meta, lastSavedAt: now } }] *)
Definition with_tasks_saved (s : AppState) (ts : list Task) (now : Instant) : AppState :=
  mkState (score s) ts (stats s) (mkMeta now (appVersion (meta s))) (preferences s).

(** The mapped task of the [tick] case. *)
Definition tick_task (now : Instant) (task : Task) : Task :=
  match remainingSeconds task with
  | None => task
  | Some r =>
      if r <=? 0 then task
      else if is_paused task then task
      else
        let r' := r - 1 in
        if 0 <? r' then
          mkTask (id task) (title task) (createdAt task) now (completedAt task)
            (timeAssignedSeconds task) (Some r') (Some in_progress) (isPaused task)
            (history task)
        else
          mkTask (id task) (title task) (createdAt task) now (Some now)
            (timeAssignedSeconds task) (Some 0) (Some struck) (isPaused task)
            (history task ++ [mkEntry auto_complete (Some (dflt 0 (timeAssignedSeconds task))) now])
  end.

(** [becameStruck]: the active task had a positive countdown before the tick
    and is terminal after it. *)
Definition becameStruck (before after : list Task) (i : nat) : bool :=
  match nth_error before i, nth_error after i with
  | Some a, Some a' =>
      match remainingSeconds a with
      | Some r => (0 <? r) && is_terminal a'
      | None => false
      end
  | _, _ => false
  end.

Definition reduce_tick (state : AppState) (now : Instant) : AppState :=
  match findActiveTaskIndex (tasks state) with
  | None => state
  | Some i =>
      let ts := map_index (fun j t => if Nat.eqb j i then tick_task now t else t) (tasks state) in
      let updated := with_tasks state (ensureAlignedTasks ts) in
      if becameStruck (tasks state) ts i then
        mkState (score state + 1) (tasks updated) (updateStatsOnCompletion state now)
          (meta updated) (preferences updated)
      else updated
  end.

Definition new_task (newId title' : string) (seconds : option Z) (now : Instant) : Task :=
  mkTask newId title' now now None seconds seconds (Some pending) None [].

Definition reduce_manualComplete (state : AppState) (now : Instant) : AppState :=
  match findActiveTaskIndex (tasks state) with
  | None => state
  | Some i =>
      let ts := map_index (fun j task =>
                  if Nat.eqb j i then
                    mkTask (id task) (title task) (createdAt task) now (Some now)
                      (timeAssignedSeconds task) (Some 0) (Some completed) (isPaused task)
                      (history task ++ [mkEntry manual_complete
                                          (Some (dflt 0 (remainingSeconds task))) now])
                  else task) (tasks state) in
      mkState (score state + 2) (ensureAlignedTasks ts) (updateStatsOnCompletion state now)
        (mkMeta now (appVersion (meta state))) (preferences state)
  end.

(** The mapped task of the [addTime] case (extended variant). *)
Definition addTime_task (seconds : Z) (now : Instant) (task : Task) : Task :=
  let previousAssigned := dflt 0 (timeAssignedSeconds task) in
  let totalAssigned := previousAssigned + seconds in
  let remaining := effective_remaining task + seconds in
  let wasFinished := is_terminal task in
  let status' := if wasFinished && (0 <? remaining) then in_progress
                 else if is_terminal task then dflt pending (status task) else in_progress in
  mkTask (id task) (title task) (createdAt task) now
    (if wasFinished && (0 <? remaining) then None else completedAt task)
    (Some totalAssigned) (Some remaining) (Some status') (isPaused task)
    (history task ++ [mkEntry add_time (Some seconds) now]).

(** [scoreDelta] of the [addTime] case: one point per matched task. *)
Definition addTime_delta (taskId : string) (seconds : Z) (ts : list Task) : Z :=
  fold_left (fun acc task =>
    if String.eqb (id task) taskId then
      if (0 <? seconds) && (0 <? dflt 0 (timeAssignedSeconds task)) then acc - 1 else acc
    else acc) ts 0.

Definition reduce_addTime (state : AppState) (taskId : string) (seconds : Z) (now : Instant)
  : AppState :=
  let ts := map (fun task => if String.eqb (id task) taskId then addTime_task seconds now task
                             else task) (tasks state) in
  mkState (score state + addTime_delta taskId seconds (tasks state)) (ensureAlignedTasks ts)
    (stats state) (mkMeta now (appVersion (meta state))) (preferences state).

(** The mapped task of the [updateTask] case (extended variant). *)
Definition updateTask_task (title' : string) (seconds : option Z) (now : Instant) (task : Task)
  : Task :=
  let previousAssigned := dflt 0 (timeAssignedSeconds task) in
  let previousRemaining := dflt previousAssigned (remainingSeconds task) in
  let hasTime := match seconds with Some n => 0 <? n | None => false end in
  let nextAssigned := dflt 0 seconds in
  let nextRemaining := Z.max 0 (previousRemaining + (nextAssigned - previousAssigned)) in
  let wasFinished := is_terminal task in
  let revive := wasFinished && hasTime && (0 <? nextRemaining) in
  let status' := if revive then in_progress
                 else if is_terminal task then dflt pending (status task)
                 else if hasTime then in_progress else pending in
  mkTask (id task) title' (createdAt task) now
    (if revive then None else completedAt task)
    (if hasTime then seconds else None) (if hasTime then Some nextRemaining else None)
    (Some status') (isPaused task) (history task).

Definition updateTask_delta (taskId : string) (seconds : option Z) (ts : list Task) : Z :=
  fold_left (fun acc task =>
    if String.eqb (id task) taskId then
      let previousAssigned := dflt 0 (timeAssignedSeconds task) in
      match seconds with
      | Some n => if (0 <? n) && (0 <? n - previousAssigned) && (0 <? previousAssigned)
                  then acc - 1 else acc
      | None => acc
      end
    else acc) ts 0.

(** [new Map(tasks.map(t => [t.id, t])).get(id)]: the last task with that id. *)
Definition map_get (ts : list Task) (k : string) : option Task :=
  fold_left (fun acc t => if String.eqb (id t) k then Some t else acc) ts None.

Fixpoint reorder_collect (ts : list Task) (ids seen : list string) (acc : list Task)
  : list Task * list string :=
  match ids with
  | [] => (acc, seen)
  | k :: rest =>
      match map_get ts k with
      | Some t =>
          if existsb (String.eqb k) seen then reorder_collect ts rest seen acc
          else reorder_collect ts rest (seen ++ [k]) (acc ++ [t])
      | None => reorder_collect ts rest seen acc
      end
  end.

Definition reduce_reorder (state : AppState) (orderedTaskIds : list string) (now : Instant)
  : AppState :=
  match orderedTaskIds with
  | [] => state
  | _ =>
      let '(reordered, seen) := reorder_collect (tasks state) orderedTaskIds [] [] in
      let trailing := filter (fun t => negb (existsb (String.eqb (id t)) seen)) (tasks state) in
      with_tasks_saved state (ensureAlignedTasks (reordered ++ trailing)) now
  end.

Definition reducer (state : AppState) (action : AppAction) : AppState :=
  match action with
  | hydrate payload => with_tasks payload (ensureAlignedTasks (tasks payload))
  | tick now => reduce_tick state now
  | addTask newId title' seconds now =>
      with_tasks_saved state
        (ensureAlignedTasks (tasks state ++ [new_task newId title' seconds now])) now
  | manualComplete now => reduce_manualComplete state now
  | addTime taskId seconds now => reduce_addTime state taskId seconds now
  | updateTask taskId title' seconds now =>
      let ts := map (fun task => if String.eqb (id task) taskId
                                 then updateTask_task title' seconds now task else task)
                    (tasks state) in
      mkState (score state + updateTask_delta taskId seconds (tasks state))
        (ensureAlignedTasks ts) (stats state) (mkMeta now (appVersion (meta state)))
        (preferences state)
  | deleteTask taskId now =>
      with_tasks_saved state
        (ensureAlignedTasks (filter (fun t => negb (String.eqb (id t) taskId)) (tasks state))) now
  | reorderTasks orderedTaskIds now => reduce_reorder state orderedTaskIds now
  | syncMeta lsa av => mkState (score state) (tasks state) (stats state) (mkMeta lsa av)
                         (preferences state)
  | setAlwaysOnTop value => mkState (score state) (tasks state) (stats state) (meta state)
                              (mkPrefs value)
  | pauseTask taskId now =>
      with_tasks_saved state
        (map (fun t => if String.eqb (id t) taskId then with_paused t true now else t)
             (tasks state)) now
  | resumeTask taskId now =>
      with_tasks_saved state
        (map (fun t => if String.eqb (id t) taskId then with_paused t false now else t)
             (tasks state)) now
  end.

(** The [addTime] case of the first reducer variant (lines 153-185): no
    revival of a finished task and an unconditional [score - 1]. *)
Definition addTime_task_v1 (seconds : Z) (now : Instant) (task : Task) : Task :=
  let totalAssigned := dflt 0 (timeAssignedSeconds task) + seconds in
  let remaining := effective_remaining task + seconds in
  let status' := if is_terminal task then dflt pending (status task) else in_progress in
  mkTask (id task) (title task) (createdAt task) now (completedAt task)
    (Some totalAssigned) (Some remaining) (Some status') (isPaused task)
    (history task ++ [mkEntry add_time (Some seconds) now]).

Definition reduce_addTime_v1 (state : AppState) (taskId : string) (seconds : Z) (now : Instant)
  : AppState :=
  let ts := map (fun task => if String.eqb (id task) taskId then addTime_task_v1 seconds now task
                             else task) (tasks state) in
  mkState (score state - 1) (ensureAlignedTasks ts) (stats state)
    (mkMeta now (appVersion (meta state))) (preferences state).

(** [tick] dispatched once per instant of the list, in order. *)
Fixpoint tick_many (s : AppState) (instants : list Instant) : AppState :=
  match instants with
  | [] => s
  | n :: rest => tick_many (reducer s (tick n)) rest
  end.

(** ** The timer of [useAppStore] ([state.ts], lines 923-946) *)

(** [lastTickTimestampRef] and [tickCarryoverRef]. Timestamps are integer
    milliseconds, so [Math.floor(deltaMs / 1000)] is the floor division
    [Z.div]. *)
Record TickClock := mkClock {
  lastTickTimestamp : option Z;
  tickCarryover : Z
}.

(** [dispatchTick(nowMs)]: the refs it leaves and the instants of the [tick]
    actions it dispatches, in order. *)
Definition dispatchTick_clock (c : TickClock) (nowMs : Z) : TickClock * list Instant :=
  match lastTickTimestamp c with
  | None => (mkClock (Some nowMs) 0, [])
  | Some previous =>
      let deltaMs := nowMs - previous + tickCarryover c in
      let elapsedSeconds := deltaMs / 1000 in
      let carry := deltaMs - elapsedSeconds * 1000 in
      (mkClock (Some nowMs) carry,
       if elapsedSeconds <=? 0 then []
       else map (fun i => previous + Z.of_nat i * 1000) (seq 1 (Z.to_nat elapsedSeconds)))
  end.

(** [dispatchTick] on the store: the reducer runs once per dispatched tick. *)
Definition dispatchTick (st : AppState * TickClock) (nowMs : Z) : AppState * TickClock :=
  let '(c', ins) := dispatchTick_clock (snd st) nowMs in (tick_many (fst st) ins, c').

(** The timer callbacks [onTimerTick(timestamp)] at the given timestamps, in
    order: the final refs and every tick instant dispatched. *)
Fixpoint timer_run (c : TickClock) (stamps : list Z) : TickClock * list Instant :=
  match stamps with
  | [] => (c, [])
  | t :: rest =>
      let '(c1, i1) := dispatchTick_clock c t in
      let '(c2, i2) := timer_run c1 rest in
      (c2, i1 ++ i2)
  end.

(** ** Store callbacks ([state.ts], lines 1003-1014) *)

(** [deleteTasks]: one [deleteTask] per id, all stamped with the same [now]. *)
Definition deleteTasks (s : AppState) (taskIds : list string) (now : Instant) : AppState :=
  fold_left (fun st taskId => reducer st (deleteTask taskId now)) taskIds s.

(** ** [handleMakeActive] ([src/src/renderer/App.tsx], lines 386-411) *)

(** [arr.findIndex(p)] as the number it returns, [-1] when nothing matches. *)
Definition findIndexZ {A} (p : A -> bool) (l : list A) : Z :=
  match findIndex p l with Some i => Z.of_nat i | None => -1 end.

(** [arr.indexOf(x)] on strings. *)
Definition indexOf (l : list string) (x : string) : Z :=
  findIndexZ (fun y => String.eqb y x) l.

(** The start position [Array.prototype.splice] uses: a negative start counts
    from the end, and the position is clamped to [0, length]. *)
Definition splice_start (len start : Z) : nat :=
  Z.to_nat (if start <? 0 then Z.max (len + start) 0 else Z.min start len).

(** [arr.splice(start, 1)] *)
Definition splice_remove1 {A} (l : list A) (start : Z) : list A :=
  let k := splice_start (Z.of_nat (List.length l)) start in
  firstn k l ++ skipn (S k) l.

(** [arr.splice(start, 0, x)] *)
Definition splice_insert {A} (l : list A) (start : Z) (x : A) : list A :=
  let k := splice_start (Z.of_nat (List.length l)) start in
  firstn k l ++ x :: skipn k l.

(** The id order [handleMakeActive] passes to [reorderTasks]. *)
Definition handleMakeActive_order (ts : list Task) (task : Task) : list string :=
  match findIndex (fun t => negb (is_terminal t)) ts with
  | None => id task :: map id (filter (fun t => negb (String.eqb (id t) (id task))) ts)
  | Some activeIndex =>
      let taskIds := map id ts in
      let selectedTaskIndex := indexOf taskIds (id task) in
      let reordered := splice_remove1 taskIds selectedTaskIndex in
      let newActiveIndex :=
        findIndexZ (fun x => String.eqb x (nth activeIndex taskIds EmptyString)) reordered in
      splice_insert reordered (newActiveIndex + 1) (id task)
  end.

(** [handleMakeActive task]: the [reorderTasks] callback dispatches the
    [reorderTasks] action with the current instant. *)
Definition handleMakeActive (s : AppState) (task : Task) (now : Instant) : AppState :=
  reducer s (reorderTasks (handleMakeActive_order (tasks s) task) now).

(** ** Durations in the edit modals ([src/src/renderer/utils/time.ts],
    [src/src/renderer/components/EditModal.tsx], [src/pwa/src/components/EditModal.tsx])

    A JavaScript number reaches these functions only through [Number.isFinite],
    [Number.isNaN], [Math.min]/[Math.max] and [Math.floor], so a finite number
    is kept as its floor. An optional value ([x?: number], or a property that
    does not exist) is an [option], [None] for [undefined]. *)

Inductive JSNumber := js_num (floor : Z) | js_nan | js_infinity (positive : bool).

(** [Number.isFinite(x) ? Math.max(0, Math.floor(x)) : 0] *)
Definition safe_nonneg (x : option JSNumber) : Z :=
  match x with Some (js_num n) => Z.max 0 n | _ => 0 end.

(** [combineToSeconds] *)
Definition combineToSeconds (hours minutes : option JSNumber) : Z :=
  let safeHours := safe_nonneg hours in
  let safeMinutes := safe_nonneg minutes in
  let totalMinutes := safeHours * 60 + safeMinutes in
  Z.max 0 (totalMinutes * 60).

(** [splitSeconds]: [{ hours, minutes }] as a pair. [!seconds] holds for
    [undefined], [NaN] and [0]; a finite number whose floor is [0] gives
    [{ 0, 0 }] on both paths. For [+Infinity], [Infinity % 3600] is [NaN]. *)
Definition splitSeconds (seconds : option JSNumber) : JSNumber * JSNumber :=
  match seconds with
  | Some (js_num n) =>
      if n =? 0 then (js_num 0, js_num 0)
      else
        let clamped := Z.max 0 n in
        (js_num (clamped / 3600), js_num ((clamped mod 3600) / 60))
  | Some (js_infinity true) => (js_infinity true, js_nan)
  | _ => (js_num 0, js_num 0)
  end.

(** [String.prototype.trim] on ASCII text: tab, line feed, vertical tab,
    form feed, carriage return and space. *)
Definition js_space (c : Ascii.ascii) : bool :=
  match Ascii.nat_of_ascii c with 9 | 10 | 11 | 12 | 13 | 32 => true | _ => false end%nat.

Fixpoint drop_spaces (l : list Ascii.ascii) : list Ascii.ascii :=
  match l with
  | [] => []
  | c :: r => if js_space c then drop_spaces r else l
  end.

Definition js_trim (s : string) : string :=
  string_of_list_ascii (rev (drop_spaces (rev (drop_spaces (list_ascii_of_string s))))).

(** What [handleSubmit] does: an error message, or [onSubmit] called with the
    trimmed title and the seconds. *)
Inductive SubmitResult :=
  | submit_error (message : string)
  | submitted (title' : string) (seconds : option Z).

(** *** The renderer's [EditModal] *)

(** The [minutes] and [seconds] state of the modal when it opens:
    [initialTime.minutes] and [initialTime.seconds], which [splitSeconds]
    does not return. *)
Definition desktop_initial_time (initialSeconds : option JSNumber)
  : option JSNumber * option JSNumber :=
  (Some (snd (splitSeconds initialSeconds)), None).

(** [handleSubmit] of the renderer's modal: [combineToSeconds(minutes, seconds)]. *)
Definition desktop_handleSubmit (title' : string) (useTime requireTime : bool)
    (minutes seconds : option JSNumber) : SubmitResult :=
  if String.eqb (js_trim title') EmptyString then submit_error "Task title is required."
  else if useTime then
    let computedSeconds := combineToSeconds minutes seconds in
    if computedSeconds <=? 0 then submit_error "Please provide a positive amount of time."
    else submitted (js_trim title') (Some computedSeconds)
  else if requireTime then submit_error "Please provide a time limit before continuing."
  else submitted (js_trim title') None.

(** *** The PWA's [EditModal]

    Its import [../utils/time] has no file under [src/pwa/src]; the
    [combineToSeconds] above, from the renderer's [utils/time.ts], stands for it. *)

Definition MAX_TOTAL_MINUTES : Z := 240.
Definition MAX_HOURS : Z := MAX_TOTAL_MINUTES / 60.

(** [clampDuration] *)
Definition clampDuration (rawHours rawMinutes : JSNumber) : Z * Z :=
  let safeHours := safe_nonneg (Some rawHours) in
  let safeMinutes := safe_nonneg (Some rawMinutes) in
  let combinedMinutes := safeHours * 60 + safeMinutes in
  let limitedMinutes := Z.min MAX_TOTAL_MINUTES combinedMinutes in
  (Z.min MAX_HOURS (limitedMinutes / 60), limitedMinutes mod 60).

(** [Math.max(0, Math.min(hi, Math.floor(raw)))] for a raw value that is not
    [NaN]: [Math.min(hi, -Infinity)] is [-Infinity]. *)
Definition clamp_input (hi : Z) (raw : JSNumber) : Z :=
  match raw with
  | js_num n => Z.max 0 (Z.min hi n)
  | js_infinity true => Z.max 0 hi
  | js_infinity false | js_nan => 0
  end.

(** The [onChange] of the hours field on the state [(hours, minutes)], with
    [raw = Number(event.target.value)]. *)
Definition pwa_on_hours (raw : JSNumber) (hm : Z * Z) : Z * Z :=
  let '(hours, minutes) := hm in
  match raw with
  | js_nan => hm
  | _ =>
      let safe := clamp_input MAX_HOURS raw in
      let totalMinutes := safe * 60 + minutes in
      if MAX_TOTAL_MINUTES <? totalMinutes then
        let clampedTotal := Z.min MAX_TOTAL_MINUTES totalMinutes in
        (clampedTotal / 60, clampedTotal mod 60)
      else (safe, minutes)
  end.

(** The [onChange] of the minutes field. *)
Definition pwa_on_minutes (raw : JSNumber) (hm : Z * Z) : Z * Z :=
  let '(hours, minutes) := hm in
  match raw with
  | js_nan => hm
  | _ =>
      let safe := clamp_input 59 raw in
      let totalMinutes := hours * 60 + safe in
      if MAX_TOTAL_MINUTES <? totalMinutes then
        let clampedTotal := Z.min MAX_TOTAL_MINUTES totalMinutes in
        (clampedTotal / 60, clampedTotal mod 60)
      else (hours, safe)
  end.

Inductive PwaTimeEvent := hours_input (raw : JSNumber) | minutes_input (raw : JSNumber).

Definition pwa_time_step (hm : Z * Z) (e : PwaTimeEvent) : Z * Z :=
  match e with
  | hours_input raw => pwa_on_hours raw hm
  | minutes_input raw => pwa_on_minutes raw hm
  end.

(** The [hours] and [minutes] state after the modal opened with
    [clampDuration(initialTime.hours, initialTime.minutes)] and the inputs
    [evs] were typed. *)
Definition pwa_time_session (initialTime : JSNumber * JSNumber) (evs : list PwaTimeEvent) : Z * Z :=
  fold_left pwa_time_step evs (clampDuration (fst initialTime) (snd initialTime)).

(** The limits the PWA modal keeps on its [hours] and [minutes] state. *)
Definition pwa_time_ok (hm : Z * Z) : Prop :=
  0 <= fst hm <= MAX_HOURS /\ 0 <= snd hm <= 59 /\ fst hm * 60 + snd hm <= MAX_TOTAL_MINUTES.

(** [handleSubmit] of the PWA modal: [combineToSeconds(hours, minutes)]. *)
Definition pwa_handleSubmit (title' : string) (useTime requireTime : bool) (hours minutes : Z)
  : SubmitResult :=
  if String.eqb (js_trim title') EmptyString then submit_error "Task title is required."
  else if useTime then
    let computedSeconds := combineToSeconds (Some (js_num hours)) (Some (js_num minutes)) in
    if computedSeconds <=? 0 then submit_error "Please provide a positive amount of time."
    else submitted (js_trim title') (Some computedSeconds)
  else if requireTime then submit_error "Please provide a time limit before continuing."
  else submitted (js_trim title') None.

(** ** Predicates used by the proofs *)

(** The queue shape [realignTaskStatuses] leaves: the first live task is
    [pending] or [in_progress], every later live task is [pending]. [seen]
    tells whether a live task came before. *)
Fixpoint aligned_go (seen : bool) (ts : list Task) : bool :=
  match ts with
  | [] => true
  | t :: r =>
      if is_terminal t then aligned_go seen r
      else match status t with
           | Some pending => aligned_go true r
           | Some in_progress => negb seen && aligned_go true r
           | _ => false
           end
  end.

(** The states the application can be in: the empty state, a rehydrated
    document, and whatever the reducer makes of one of them. *)
Inductive reachable : AppState -> Prop :=
  | reach_empty (v : string) (now : Instant) : reachable (createEmptyState v now)
  | reach_rehydrate (raw : RawState) (v : string) (now : Instant) :
      reachable (rehydrateState raw v now)
  | reach_step (s : AppState) (a : AppAction) : reachable s -> reachable (reducer s a).

(** The [map] of [pauseTask] and [resumeTask]. *)
Definition pause_map (taskId : string) (p : bool) (now : Instant) (t : Task) : Task :=
  if String.eqb (id t) taskId then with_paused t p now else t.

(** The task id and the instant of the actions that name a task. *)
Definition action_target (a : AppAction) : option (string * Instant) :=
  match a with
  | addTime k _ n | updateTask k _ _ n | deleteTask k n | pauseTask k n | resumeTask k n =>
      Some (k, n)
  | _ => None
  end.

(** The actions naming a task whose case ends in [ensureAlignedTasks]
    ([addTime], [updateTask], [deleteTask]); [pauseTask] and [resumeTask]
    return their mapped list as it is. *)
Definition aligns_tasks (a : AppAction) : bool :=
  match a with
  | addTime _ _ _ | updateTask _ _ _ _ | deleteTask _ _ => true
  | _ => false
  end.

(** Two tasks added to an empty state: ["a"] (10 s) then ["b"] (20 s). *)
Definition two_task_state : AppState :=
  reducer (reducer (createEmptyState "1.0.0" 0) (addTask "a" "first" (Some 10) 0))
    (addTask "b" "second" (Some 20) 0).

(** Whether some task of the list is live (neither [completed] nor [struck]). *)
Definition has_live (ts : list Task) : bool := existsb (fun t => negb (is_terminal t)) ts.

(** A task as [ensureTaskDefaults] leaves it. *)
Definition normalized (t : Task) : Prop :=
  status t <> None /\ (timeAssignedSeconds t <> None -> remainingSeconds t <> None).

Definition count_live (ts : list Task) : nat :=
  List.length (filter (fun t => negb (is_terminal t)) ts).

Definition count_struck (ts : list Task) : nat :=
  List.length (filter is_struck ts).

(** No live task is left. *)
Definition terminal_all (ts : list Task) : Prop :=
  Forall (fun x => negb (is_terminal x) = false) ts.

(** The statistics after [k] strikes stamped on the day [key], starting
    from [bs]: what [k] passes through the strike branch produce. *)
Definition stats_after (bs : StatsSnapshot) (key : Z) (k : nat) : StatsSnapshot :=
  match k with
  | O => bs
  | S _ =>
      let same := match lastCompletionDate bs with Some d => d =? key | None => false end in
      mkStats (totalCompleted bs + Z.of_nat k)
        (if same then todayCompleted bs + Z.of_nat k else Z.of_nat k) (Some key)
  end.

(** A task with its time stamps and the amounts of its history entries
    blanked out: what catch-up and replayed ticks are compared on. *)
Definition erase_entry (e : TaskHistoryEntry) : TaskHistoryEntry :=
  mkEntry (htype e) (option_map (fun _ => 0) (amountSeconds e)) 0.

Definition erase_stamps (t : Task) : Task :=
  mkTask (id t) (title t) (createdAt t) 0 (option_map (fun _ => 0) (completedAt t))
    (timeAssignedSeconds t) (remainingSeconds t) (status t) (isPaused t)
    (map erase_entry (history t)).

(** The fields of a task that a countdown leaves alone. *)
Definition task_core (t : Task) : Task :=
  mkTask (id t) (title t) (createdAt t) 0 (completedAt t) (timeAssignedSeconds t) None None
    (isPaused t) (history t).

(** ** Lemmas on lists *)

Section ListFacts.
Context {A : Type}.

Lemma findIndex_split (p : A -> bool) (l : list A) (i : nat) :
  findIndex p l = Some i ->
  exists pre a post, l = pre ++ a :: post /\ List.length pre = i /\
    Forall (fun x => p x = false) pre /\ p a = true.
Proof.
  revert i; induction l as [|x r IH]; intros i H; simpl in H; [discriminate|].
  destruct (p x) eqn:Px.
  - injection H as <-. exists [], x, r. repeat split; auto.
  - destruct (findIndex p r) as [k|] eqn:F; simpl in H; [|discriminate].
    injection H as <-. destruct (IH k eq_refl) as (pre & a & post & -> & <- & Hpre & Ha).
    exists (x :: pre), a, post. repeat split; auto.
Qed.

Lemma findIndex_none (p : A -> bool) (l : list A) :
  findIndex p l = None -> Forall (fun x => p x = false) l.
Proof.
  induction l as [|x r IH]; simpl; intros H; [constructor|].
  destruct (p x) eqn:Px; [discriminate|].
  destruct (findIndex p r); simpl in H; [discriminate|]. constructor; auto.
Qed.

Lemma findIndex_at (p : A -> bool) pre a post :
  Forall (fun x => p x = false) pre -> p a = true ->
  findIndex p (pre ++ a :: post) = Some (List.length pre).
Proof.
  intros Hpre Ha; induction Hpre as [|x r Hx _ IH]; simpl; [now rewrite Ha|].
  now rewrite Hx, IH.
Qed.

Lemma findIndex_all_false (p : A -> bool) l :
  Forall (fun x => p x = false) l -> findIndex p l = None.
Proof. induction 1 as [|x r Hx _ IH]; simpl; [reflexivity|]. now rewrite Hx, IH. Qed.

Lemma nth_error_at (pre : list A) a post :
  nth_error (pre ++ a :: post) (List.length pre) = Some a.
Proof. induction pre; simpl; auto. Qed.

Lemma replace_nth_at (pre : list A) a x post :
  replace_nth (List.length pre) x (pre ++ a :: post) = pre ++ x :: post.
Proof. induction pre; simpl; congruence. Qed.

Lemma map_index_from_past (g : A -> A) (i k : nat) (l : list A) :
  (i < k)%nat -> map_index_from (fun j t => if Nat.eqb j i then g t else t) k l = l.
Proof.
  revert k; induction l as [|x r IH]; intros k Hk; simpl; [reflexivity|].
  destruct (Nat.eqb_spec k i); [lia|]. f_equal. apply IH; lia.
Qed.

Lemma map_index_from_at (g : A -> A) (pre : list A) a post (k : nat) :
  map_index_from (fun j t => if Nat.eqb j (k + List.length pre) then g t else t) k
    (pre ++ a :: post) = pre ++ g a :: post.
Proof.
  revert k; induction pre as [|x r IH]; intros k; simpl.
  - rewrite Nat.add_0_r, Nat.eqb_refl. f_equal. apply map_index_from_past; lia.
  - destruct (Nat.eqb_spec k (k + S (List.length r))); [lia|].
    f_equal. replace (k + S (List.length r))%nat with (S k + List.length r)%nat by lia.
    apply IH.
Qed.

Lemma map_index_at (g : A -> A) (pre : list A) a post :
  map_index (fun j t => if Nat.eqb j (List.length pre) then g t else t) (pre ++ a :: post)
  = pre ++ g a :: post.
Proof. apply (map_index_from_at g pre a post 0). Qed.

End ListFacts.

(** ** Lemmas on tasks *)

Lemma count_live_mid pre x post :
  count_live (pre ++ x :: post)
  = (count_live pre + (if is_terminal x then 0 else 1) + count_live post)%nat.
Proof.
  unfold count_live. rewrite filter_app, length_app. simpl.
  destruct (is_terminal x); simpl; lia.
Qed.

Lemma count_struck_mid pre x post :
  count_struck (pre ++ x :: post)
  = (count_struck pre + (if is_struck x then 1 else 0) + count_struck post)%nat.
Proof.
  unfold count_struck. rewrite filter_app, length_app. simpl.
  destruct (is_struck x); simpl; lia.
Qed.

Lemma count_live_le ts : (count_live ts <= List.length ts)%nat.
Proof. unfold count_live. apply filter_length_le. Qed.

Lemma ensureTaskDefaults_id t : normalized t -> ensureTaskDefaults t = t.
Proof.
  destruct t as [i ti c u ca a r s p h]; unfold normalized, ensureTaskDefaults; simpl.
  intros [Hs Har]. rewrite map_id.
  destruct s as [s|]; [|exfalso; apply Hs; reflexivity].
  destruct a as [a|], r as [r|]; simpl; try reflexivity.
  exfalso; apply (Har ltac:(discriminate)); reflexivity.
Qed.

Lemma ensureTaskDefaults_normalized t : normalized (ensureTaskDefaults t).
Proof.
  destruct t as [i ti c u ca a r s p h]; unfold normalized, ensureTaskDefaults; simpl.
  split; [discriminate|]. destruct a, r; simpl; congruence.
Qed.

Lemma map_ensureTaskDefaults_id ts :
  Forall normalized ts -> map ensureTaskDefaults ts = ts.
Proof.
  induction 1; simpl; [reflexivity|]. rewrite ensureTaskDefaults_id by assumption. congruence.
Qed.

Lemma with_status_normalized t s : normalized t -> normalized (with_status t s).
Proof. destruct t; unfold normalized; simpl; intros [_ H]; split; [discriminate|exact H]. Qed.

Lemma is_terminal_with_status t s :
  is_terminal (with_status t s) = match s with completed | struck => true | _ => false end.
Proof. destruct t, s; reflexivity. Qed.

Lemma effective_remaining_with_status t s :
  effective_remaining (with_status t s) = effective_remaining t.
Proof. destruct t; reflexivity. Qed.

Lemma with_status_twice t s s' : with_status (with_status t s) s' = with_status t s'.
Proof. destruct t; reflexivity. Qed.

(** ** Lemmas on [realignTaskStatuses] *)

Lemma realign_go_terminal_prefix h pre rest :
  Forall (fun x => negb (is_terminal x) = false) pre ->
  realign_go h (pre ++ rest) = pre ++ realign_go h rest.
Proof.
  induction 1 as [|x r Hx _ IH]; simpl; [reflexivity|].
  apply negb_false_iff in Hx. rewrite Hx. congruence.
Qed.

Lemma realign_go_idem h ts : realign_go h (realign_go h ts) = realign_go h ts.
Proof.
  revert h; induction ts as [|t r IH]; intros h; cbn [realign_go]; [reflexivity|].
  destruct (is_terminal t) eqn:T.
  - cbn [realign_go]. rewrite T. congruence.
  - destruct h; cbn [realign_go].
    + rewrite is_terminal_with_status, with_status_twice. cbn iota. congruence.
    + rewrite is_terminal_with_status, effective_remaining_with_status, with_status_twice.
      destruct (0 <? effective_remaining t); cbn iota; congruence.
Qed.

Lemma realign_go_normalized h ts : Forall normalized ts -> Forall normalized (realign_go h ts).
Proof.
  intros H; revert h; induction H as [|t r Ht _ IH]; intros h; simpl; [constructor|].
  destruct (is_terminal t); [|destruct h]; constructor; auto using with_status_normalized.
Qed.

Lemma realign_go_count_struck h ts : count_struck (realign_go h ts) = count_struck ts.
Proof.
  revert h; induction ts as [|t r IH]; intros h; simpl; [reflexivity|].
  unfold count_struck in *.
  destruct (is_terminal t) eqn:T; [|destruct h]; simpl.
  - destruct (is_struck t); simpl; rewrite IH; reflexivity.
  - assert (is_struck t = false) as -> by (destruct t as [? ? ? ? ? ? ? [[]|] ? ?]; easy).
    simpl. apply IH.
  - assert (is_struck t = false) as -> by (destruct t as [? ? ? ? ? ? ? [[]|] ? ?]; easy).
    destruct (0 <? effective_remaining t); simpl; apply IH.
Qed.

Lemma realign_go_remaining h ts :
  map remainingSeconds (realign_go h ts) = map remainingSeconds ts.
Proof.
  revert h; induction ts as [|t r IH]; intros h; simpl; [reflexivity|].
  destruct (is_terminal t); [|destruct h]; simpl; f_equal; try apply IH; destruct t; reflexivity.
Qed.

Lemma realign_go_struck h ts : map is_struck (realign_go h ts) = map is_struck ts.
Proof.
  revert h; induction ts as [|t r IH]; intros h; simpl; [reflexivity|].
  destruct (is_terminal t) eqn:T; [|destruct h]; simpl; f_equal; try apply IH;
    destruct t as [? ? ? ? ? ? ? [[]|] ? ?]; unfold is_terminal, is_struck, with_status in *; simpl in *; try destruct (0 <? _); try reflexivity; congruence.
Qed.

(** ** C8: idempotence of [ensureTaskDefaults] *)

(** C8: for every task [T], [ensureTaskDefaults (ensureTaskDefaults T)] is
    [ensureTaskDefaults T]: same status, remaining time and history. *)
Theorem ensureTaskDefaults_idempotent (T : Task) :
  ensureTaskDefaults (ensureTaskDefaults T) = ensureTaskDefaults T.
Proof. apply ensureTaskDefaults_id, ensureTaskDefaults_normalized. Qed.

(** ** The catch-up loop, one pass at a time *)

Lemma loop_eta (l : Loop) : mkLoop (l_tasks l) (l_stats l) (secondsRemaining l) = l.
Proof. destruct l; reflexivity. Qed.

(** What one pass of the loop body does. *)
Lemma loop_body_spec now l :
  (secondsRemaining l <= 0 /\ loop_body now l = Break l) \/
  (0 < secondsRemaining l /\ terminal_all (l_tasks l) /\ loop_body now l = Break l) \/
  (exists pre a post,
     l_tasks l = pre ++ a :: post /\ terminal_all pre /\ is_terminal a = false /\
     0 < secondsRemaining l /\
     ((effective_remaining a <= 0 /\ loop_body now l = Break l) \/
      (0 < effective_remaining a <= secondsRemaining l /\
       loop_body now l =
         Continue (mkLoop (pre ++ strike_task a (effective_remaining a) now :: post)
                          (bump_stats (l_stats l) (dateKey now))
                          (secondsRemaining l - effective_remaining a))) \/
      (secondsRemaining l < effective_remaining a /\
       loop_body now l =
         Continue (mkLoop (pre ++ partial_task a (effective_remaining a - secondsRemaining l) now
                             :: post) (l_stats l) 0)))).
Proof.
  unfold loop_body.
  destruct (Z.leb_spec (secondsRemaining l) 0) as [Hs|Hs]; [left; auto|right].
  destruct (findNextActiveIndex (l_tasks l)) as [i|] eqn:F.
  - right. apply findIndex_split in F as (pre & a & post & E & <- & Hpre & Ha).
    apply negb_true_iff in Ha.
    exists pre, a, post. repeat split; auto.
    rewrite E, nth_error_at, !replace_nth_at.
    destruct (Z.leb_spec (effective_remaining a) 0) as [Hr|Hr].
    + left. split; auto. rewrite <- E. now rewrite loop_eta.
    + destruct (Z.leb_spec (effective_remaining a) (secondsRemaining l)) as [Hr2|Hr2].
      * right; left. split; [lia|reflexivity].
      * right; right. split; [lia|reflexivity].
  - left. repeat split; auto. now apply findIndex_none.
Qed.

Lemma strike_task_live a r now : is_terminal (strike_task a r now) = true.
Proof. reflexivity. Qed.

Lemma partial_task_live a r now : is_terminal (partial_task a r now) = false.
Proof. reflexivity. Qed.

Lemma count_live_terminal_all ts : terminal_all ts -> count_live ts = O.
Proof.
  induction 1 as [|x r Hx _ IH]; [reflexivity|].
  unfold count_live in *; simpl. rewrite Hx. exact IH.
Qed.

Lemma count_struck_non_terminal a : is_terminal a = false -> is_struck a = false.
Proof. destruct a as [? ? ? ? ? ? ? [[]|] ? ?]; unfold is_terminal, is_struck; simpl; congruence. Qed.

(** A pass that continues either spends the whole budget or strikes a task. *)
Lemma loop_body_continue now l l' :
  loop_body now l = Continue l' ->
  0 < secondsRemaining l /\
  (secondsRemaining l' = 0 \/
   (S (count_live (l_tasks l')) = count_live (l_tasks l) /\
    count_struck (l_tasks l') = S (count_struck (l_tasks l)) /\
    0 <= secondsRemaining l' < secondsRemaining l)).
Proof.
  intros H.
  destruct (loop_body_spec now l) as [[_ E]|[[_ [_ E]]|(pre & a & post & Et & Hpre & Ha & Hs & C)]];
    try congruence.
  split; [exact Hs|].
  destruct C as [[_ E]|[[Hr E]|[Hr E]]]; rewrite E in H; [discriminate|injection H as <-..].
  - right. simpl. rewrite Et, !count_live_mid, !count_struck_mid, strike_task_live, Ha.
    rewrite (count_struck_non_terminal a Ha). simpl. repeat split; lia.
  - left. reflexivity.
Qed.

Lemma run_loop_total (now : Instant) : forall (fuel : nat) (l : Loop),
  ((if (secondsRemaining l <=? 0)%Z then 1 else count_live (l_tasks l) + 2) <= fuel)%nat ->
  exists r, run_loop fuel now l = Some r.
Proof.
  induction fuel as [|f IH]; intros l Hb.
  - destruct (secondsRemaining l <=? 0); lia.
  - simpl. destruct (loop_body now l) as [l'|l'] eqn:E; [eauto|].
    apply IH. destruct (loop_body_continue now l l' E) as [Hs [H0|(Hc & _ & Hs')]].
    + rewrite H0. simpl. destruct (Z.leb_spec (secondsRemaining l) 0); lia.
    + destruct (Z.leb_spec (secondsRemaining l) 0); [lia|].
      destruct (secondsRemaining l' <=? 0); lia.
Qed.

(** ** C9: the catch-up loop terminates *)

(** C9: for every state, elapsed time and reference instant, every pass of
    the catch-up loop that does not leave it either consumes the whole
    remaining budget or strikes one task (one live task fewer, one struck
    task more, a smaller budget), and the loop started by [autoAdvance] ends
    within [length tasks + 2] passes: the engine is total. *)
Theorem autoAdvance_terminates (state : AppState) (elapsedSeconds : Z) (now : Instant) :
  (forall l l', loop_body now l = Continue l' ->
     secondsRemaining l' = 0 \/
     (S (count_live (l_tasks l')) = count_live (l_tasks l) /\
      count_struck (l_tasks l') = S (count_struck (l_tasks l)) /\
      0 <= secondsRemaining l' < secondsRemaining l)) /\
  exists r, run_loop (S (S (List.length (tasks state)))) now
              (mkLoop (map ensureTaskDefaults (tasks state)) (stats state) elapsedSeconds)
            = Some r.
Proof.
  split.
  - intros l l' H. apply (loop_body_continue now l l' H).
  - apply run_loop_total. simpl.
    pose proof (count_live_le (map ensureTaskDefaults (tasks state))) as Hc.
    rewrite length_map in Hc.
    destruct (elapsedSeconds <=? 0); lia.
Qed.

(** ** Normalization and statistics through the loop *)

Lemma Forall_mid {A} (P : A -> Prop) pre a post x :
  Forall P (pre ++ a :: post) -> P x -> Forall P (pre ++ x :: post).
Proof.
  rewrite !Forall_app. intros [H1 H2] Hx. inversion H2; subst. split; auto.
Qed.

Lemma Forall_mid_inv {A} (P : A -> Prop) pre a post :
  Forall P (pre ++ a :: post) -> P a.
Proof. rewrite Forall_app. intros [_ H]. now inversion H. Qed.

Lemma strike_task_normalized a r now : normalized (strike_task a r now).
Proof. unfold normalized; simpl; split; discriminate. Qed.

Lemma partial_task_normalized a r now : normalized (partial_task a r now).
Proof. unfold normalized; simpl; split; discriminate. Qed.

Lemma run_loop_normalized now : forall fuel l r,
  Forall normalized (l_tasks l) -> run_loop fuel now l = Some r -> Forall normalized (l_tasks r).
Proof.
  induction fuel as [|f IH]; intros l r Hn H; simpl in H; [discriminate|].
  destruct (loop_body_spec now l)
    as [[_ E]|[[_ [_ E]]|(pre & a & post & Et & Hpre & Ha & Hs & C)]];
    [rewrite E in H; injection H as <-; exact Hn|rewrite E in H; injection H as <-; exact Hn|].
  rewrite Et in Hn.
  destruct C as [[_ E]|[[_ E]|[_ E]]]; rewrite E in H.
  - injection H as <-. rewrite Et. exact Hn.
  - eapply IH; [|exact H]. exact (Forall_mid _ _ _ _ _ Hn (strike_task_normalized _ _ _)).
  - eapply IH; [|exact H]. exact (Forall_mid _ _ _ _ _ Hn (partial_task_normalized _ _ _)).
Qed.

Lemma autoAdvance_normalized s e now : Forall normalized (res_tasks (autoAdvance s e now)).
Proof.
  unfold autoAdvance; cbn [res_tasks]. apply realign_go_normalized.
  assert (H0 : Forall normalized (map ensureTaskDefaults (tasks s)))
    by (apply Forall_map, Forall_forall; intros; apply ensureTaskDefaults_normalized).
  destruct (run_loop (S (S (List.length (tasks s)))) now
              (mkLoop (map ensureTaskDefaults (tasks s)) (stats s) e)) as [l|] eqn:E; [|exact H0].
  eapply run_loop_normalized; [|exact E]. exact H0.
Qed.

Lemma bump_stats_after bs key k :
  bump_stats (stats_after bs key k) key = stats_after bs key (S k).
Proof.
  destruct k as [|k].
  - unfold bump_stats, stats_after. destruct bs as [t d [last|]]; simpl.
    + destruct (Z.eqb_spec last key) as [->|_]; reflexivity.
    + reflexivity.
  - unfold bump_stats, stats_after.
    cbn [lastCompletionDate totalCompleted todayCompleted]. rewrite Z.eqb_refl.
    destruct (match lastCompletionDate bs with Some d => d =? key | None => false end);
      f_equal; lia.
Qed.

Lemma run_loop_stats now bs c0 : forall fuel l r,
  (c0 <= count_struck (l_tasks l))%nat ->
  l_stats l = stats_after bs (dateKey now) (count_struck (l_tasks l) - c0) ->
  run_loop fuel now l = Some r ->
  (c0 <= count_struck (l_tasks r))%nat /\
  l_stats r = stats_after bs (dateKey now) (count_struck (l_tasks r) - c0).
Proof.
  induction fuel as [|f IH]; intros l r Hc Hs H; simpl in H; [discriminate|].
  destruct (loop_body_spec now l)
    as [[_ E]|[[_ [_ E]]|(pre & a & post & Et & Hpre & Ha & Hpos & C)]];
    [rewrite E in H; injection H as <-; auto|rewrite E in H; injection H as <-; auto|].
  destruct C as [[_ E]|[[_ E]|[_ E]]]; rewrite E in H.
  - injection H as <-. auto.
  - eapply IH; [| |exact H]; simpl;
      rewrite Et, !count_struck_mid, (count_struck_non_terminal a Ha) in *; simpl in *.
    + lia.
    + rewrite Hs. replace (count_struck pre + 1 + count_struck post - c0)%nat
        with (S (count_struck pre + 0 + count_struck post - c0))%nat by lia.
      apply bump_stats_after.
  - eapply IH; [| |exact H]; simpl;
      rewrite Et, !count_struck_mid, (count_struck_non_terminal a Ha) in *; simpl in *; auto.
Qed.

Lemma autoAdvance_stats s e now :
  let c0 := count_struck (map ensureTaskDefaults (tasks s)) in
  (c0 <= count_struck (res_tasks (autoAdvance s e now)))%nat /\
  res_stats (autoAdvance s e now)
  = stats_after (stats s) (dateKey now) (count_struck (res_tasks (autoAdvance s e now)) - c0).
Proof.
  intros c0. unfold autoAdvance; cbn [res_tasks res_stats].
  unfold realignTaskStatuses. rewrite realign_go_count_struck.
  destruct (run_loop (S (S (List.length (tasks s)))) now
              (mkLoop (map ensureTaskDefaults (tasks s)) (stats s) e)) as [l|] eqn:E.
  - eapply (run_loop_stats now (stats s) c0); [| |exact E]; simpl.
    + lia.
    + rewrite Nat.sub_diag. reflexivity.
  - simpl. rewrite Nat.sub_diag. split; [lia|reflexivity].
Qed.

(** ** Lemmas on [rehydrateState] *)

Lemma elapsed_seconds_nonpos now ls : now <= ls -> elapsed_seconds now ls = 0.
Proof.
  intros H. unfold elapsed_seconds.
  assert ((now - ls) / 1000 <= 0) by (apply Z.div_le_upper_bound; lia). lia.
Qed.

Lemma rehydrate_no_elapsed raw v now :
  elapsed_seconds now (dflt now (raw_lastSavedAt raw)) = 0 ->
  rehydrateState raw v now =
  mkState (dflt 0 (raw_score raw)) (realignTaskStatuses (tasks (baseState raw v now)))
    (base_stats raw) (mkMeta now v) (mkPrefs (dflt true (raw_alwaysOnTop raw))).
Proof.
  intros H. unfold rehydrateState.
  change (lastSavedAt (meta (baseState raw v now))) with (dflt now (raw_lastSavedAt raw)).
  rewrite H. reflexivity.
Qed.

Lemma baseState_normalized raw v now : Forall normalized (tasks (baseState raw v now)).
Proof.
  unfold baseState; simpl. destruct (raw_tasks raw) as [ts|]; [|constructor].
  apply Forall_map, Forall_forall; intros; apply ensureTaskDefaults_normalized.
Qed.

Lemma rehydrate_tasks_fixed raw v now :
  Forall normalized (tasks (rehydrateState raw v now)) /\
  realignTaskStatuses (tasks (rehydrateState raw v now)) = tasks (rehydrateState raw v now).
Proof.
  unfold rehydrateState. cbn [tasks]. unfold realignTaskStatuses at 2 3.
  split; [|apply realign_go_idem].
  apply realign_go_normalized.
  destruct (0 <? _); [apply autoAdvance_normalized|apply baseState_normalized].
Qed.

(** ** C5: catch-up strikes leave the score alone *)

(** C5: whatever the catch-up strikes, [rehydrateState] returns the
    persisted score (0 when absent) and the defaulted preferences; the
    metadata is the fresh stamp; and the statistics are the defaulted ones
    updated once per strike ([stats_after]: [totalCompleted] and
    [todayCompleted] counted up, [lastCompletionDate] set to the day of [now]),
    the strikes being the tasks struck now and not struck in the input. *)
Theorem rehydrate_keeps_score (raw : RawState) (v : string) (now : Instant) :
  let R := rehydrateState raw v now in
  let b := baseState raw v now in
  score R = dflt 0 (raw_score raw) /\
  preferences R = preferences b /\
  meta R = mkMeta now v /\
  (count_struck (tasks b) <= count_struck (tasks R))%nat /\
  stats R = stats_after (stats b) (dateKey now) (count_struck (tasks R) - count_struck (tasks b)).
Proof.
  intros R b. subst R. unfold rehydrateState. fold b.
  cbn [score preferences meta stats tasks].
  destruct (0 <? elapsed_seconds now (lastSavedAt (meta b))).
  - cbn [score preferences meta stats tasks].
    pose proof (autoAdvance_stats b (elapsed_seconds now (lastSavedAt (meta b))) now) as [Hc Hs].
    rewrite (map_ensureTaskDefaults_id (tasks b) (baseState_normalized raw v now)) in Hc, Hs.
    unfold realignTaskStatuses. rewrite realign_go_count_struck.
    repeat split; try reflexivity; [exact Hc|exact Hs].
  - unfold realignTaskStatuses. rewrite realign_go_count_struck, Nat.sub_diag.
    repeat split; reflexivity.
Qed.

Lemma bump_stats_total st k : totalCompleted (bump_stats st k) = totalCompleted st + 1.
Proof. unfold bump_stats. destruct (match lastCompletionDate st with Some d => d =? k | None => false end); reflexivity. Qed.

(** ** C6: the two-task catch-up scenario *)

(** C6: a document with two tasks, the first live with [remainingSeconds = 5],
    the second [pending] with [timeAssignedSeconds = 20] and no
    [remainingSeconds], rehydrated 8 seconds (8000 to 8999 ms) after its last
    save: the first task is struck with [remainingSeconds = 0] and one new
    [auto_complete] entry of 5 seconds, the second is [in_progress] with
    [remainingSeconds = 17] and its history untouched, and [totalCompleted]
    is one more than the persisted one. *)
Theorem rehydrate_two_tasks (raw : RawState) (v : string) (now ls : Instant) (t1 t2 : Task) :
  raw_tasks raw = Some [t1; t2] ->
  raw_lastSavedAt raw = Some ls ->
  8000 <= now - ls < 9000 ->
  is_terminal t1 = false -> remainingSeconds t1 = Some 5 ->
  status t2 = Some pending -> timeAssignedSeconds t2 = Some 20 -> remainingSeconds t2 = None ->
  exists t1' t2',
    tasks (rehydrateState raw v now) = [t1'; t2'] /\
    status t1' = Some struck /\ remainingSeconds t1' = Some 0 /\
    history t1' = history t1 ++ [mkEntry auto_complete (Some 5) now] /\
    status t2' = Some in_progress /\ remainingSeconds t2' = Some 17 /\
    history t2' = history t2 /\
    totalCompleted (stats (rehydrateState raw v now)) = totalCompleted (base_stats raw) + 1.
Proof.
  intros Ht Hls Hgap H1 Hr1 Hs2 Ha2 Hr2.
  assert (He : elapsed_seconds now ls = 8).
  { unfold elapsed_seconds.
    assert ((now - ls) / 1000 = 8) as -> by
      (symmetry; apply Z.div_unique with (now - ls - 8000); lia).
    reflexivity. }
  destruct t1 as [i1 ti1 c1 u1 ca1 a1 r1 s1 p1 h1],
           t2 as [i2 ti2 c2 u2 ca2 a2 r2 s2 p2 h2].
  cbn in Hr1, Hs2, Ha2, Hr2, H1. subst r1 s2 a2 r2.
  assert (Hst : stats (rehydrateState raw v now) = bump_stats (base_stats raw) (dateKey now)).
  { unfold rehydrateState.
    change (lastSavedAt (meta (baseState raw v now))) with (dflt now (raw_lastSavedAt raw)).
    rewrite Hls. cbn [dflt]. rewrite He. unfold baseState, autoAdvance. rewrite Ht.
    destruct s1 as [[| | |]|]; cbn in H1; try discriminate; destruct a1;
      cbv -[base_stats dateKey bump_stats]; reflexivity. }
  rewrite Hst, bump_stats_total.
  unfold rehydrateState.
  change (lastSavedAt (meta (baseState raw v now))) with (dflt now (raw_lastSavedAt raw)).
  rewrite Hls. cbn [dflt]. rewrite He. unfold baseState, autoAdvance. rewrite Ht.
  clear Ht Hst.
  destruct s1 as [[| | |]|]; cbn in H1; try discriminate; destruct a1;
  cbv -[base_stats dateKey];
  (eexists; eexists; split; [reflexivity|]);
  repeat split; try reflexivity;
  try (clear; induction h1; cbn; congruence);
  try (clear; induction h2; cbn; congruence).
Qed.

Lemma rehydrate_two_tasks_witness :
  let t1 := mkTask "a" "first" 0 0 None (Some 10) (Some 5) (Some in_progress) None [] in
  let t2 := mkTask "b" "second" 0 0 None (Some 20) None (Some pending) None [] in
  let raw0 := mkRaw (Some 3) (Some [t1; t2]) None (Some 1000) None in
  exists t1' t2', tasks (rehydrateState raw0 "1.0.0" 9500) = [t1'; t2'] /\
    status t1' = Some struck /\ remainingSeconds t2' = Some 17.
Proof.
  intros t1 t2 raw0.
  destruct (rehydrate_two_tasks raw0 "1.0.0" 9500 1000 t1 t2 eq_refl eq_refl ltac:(lia)
              eq_refl eq_refl eq_refl eq_refl eq_refl)
    as (a & b & E & S1 & _ & _ & _ & R2 & _).
  exists a, b. split; [exact E|split; assumption].
Defined.

(** ** C7: a save stamp in the future means no elapsed time *)

(** C7: when the persisted [lastSavedAt] is later than [now], rehydration
    gives the same state as with [lastSavedAt = now]: the remaining times and
    the struck tasks are those of the (defaulted) input, and the statistics
    are the persisted ones. *)
Theorem rehydrate_future_lastSavedAt (raw : RawState) (v : string) (now ls : Instant) :
  raw_lastSavedAt raw = Some ls -> now < ls ->
  rehydrateState raw v now
  = rehydrateState (mkRaw (raw_score raw) (raw_tasks raw) (raw_stats raw) (Some now)
                          (raw_alwaysOnTop raw)) v now /\
  map remainingSeconds (tasks (rehydrateState raw v now))
  = map remainingSeconds (tasks (baseState raw v now)) /\
  map is_struck (tasks (rehydrateState raw v now))
  = map is_struck (tasks (baseState raw v now)) /\
  stats (rehydrateState raw v now) = base_stats raw.
Proof.
  intros Hls Hlt.
  assert (H0 : elapsed_seconds now (dflt now (raw_lastSavedAt raw)) = 0)
    by (rewrite Hls; apply elapsed_seconds_nonpos; simpl; lia).
  rewrite (rehydrate_no_elapsed raw v now H0).
  rewrite rehydrate_no_elapsed by (apply elapsed_seconds_nonpos; simpl; lia).
  cbn [tasks stats]. unfold realignTaskStatuses.
  rewrite realign_go_remaining, realign_go_struck.
  repeat split; reflexivity.
Qed.

Lemma rehydrate_future_lastSavedAt_witness :
  let raw1 := mkRaw (Some 3)
                (Some [mkTask "a" "first" 0 0 None (Some 10) (Some 5) (Some in_progress) None []])
                (Some (mkRawStats (Some 2) (Some 1) (Some 0))) (Some 100) None in
  stats (rehydrateState raw1 "1.0.0" 50) = base_stats raw1.
Proof.
  intros raw1.
  exact (proj2 (proj2 (proj2 (rehydrate_future_lastSavedAt raw1 "1.0.0" 50 100 eq_refl
                                ltac:(lia))))).
Defined.

(** ** C10: rehydration is idempotent at a fixed instant *)

(** C10: rehydrating, at the same instant and version, the document that a
    rehydration produced gives that state back unchanged. *)
Theorem rehydrate_idempotent (raw : RawState) (v : string) (now : Instant) :
  rehydrateState (to_raw (rehydrateState raw v now)) v now = rehydrateState raw v now.
Proof.
  destruct (rehydrate_tasks_fixed raw v now) as [Hn Hf].
  assert (Hm : meta (rehydrateState raw v now) = mkMeta now v) by reflexivity.
  set (R := rehydrateState raw v now) in *.
  rewrite rehydrate_no_elapsed.
  2: { cbn [to_raw raw_lastSavedAt dflt]. rewrite Hm. cbn [lastSavedAt]. unfold elapsed_seconds. simpl. rewrite Z.sub_diag. reflexivity. }
  unfold baseState, to_raw. cbn [raw_tasks raw_score raw_alwaysOnTop dflt tasks].
  rewrite (map_ensureTaskDefaults_id _ Hn), Hf.
  unfold base_stats; cbn [raw_stats raw_totalCompleted raw_todayCompleted
                          raw_lastCompletionDate dflt].
  rewrite <- Hm.
  destruct R as [sc ts [st sd sl] m [p]]. reflexivity.
Qed.

(** ** Lemmas on the queue shape *)

Lemma map_ensureTaskDefaults_normalized ts : Forall normalized (map ensureTaskDefaults ts).
Proof. apply Forall_map, Forall_forall; intros; apply ensureTaskDefaults_normalized. Qed.

Lemma ensureAlignedTasks_idem ts :
  ensureAlignedTasks (ensureAlignedTasks ts) = ensureAlignedTasks ts.
Proof.
  unfold ensureAlignedTasks at 1 2. unfold realignTaskStatuses.
  rewrite map_ensureTaskDefaults_id.
  - apply realign_go_idem.
  - apply realign_go_normalized, map_ensureTaskDefaults_normalized.
Qed.

Lemma realign_go_aligned h ts : aligned_go h (realign_go h ts) = true.
Proof.
  revert h; induction ts as [|t r IH]; intros h; cbn [realign_go]; [reflexivity|].
  destruct (is_terminal t) eqn:T.
  - cbn [aligned_go]. rewrite T. apply IH.
  - destruct h.
    + cbn [aligned_go]. rewrite is_terminal_with_status. cbn [with_status status]. apply IH.
    + destruct (0 <? effective_remaining t); cbn [aligned_go];
        rewrite is_terminal_with_status; cbn [with_status status negb andb]; apply IH.
Qed.

(** A map that keeps the status and the countdown commutes with the
    realignment. *)
Lemma realign_go_map (g : Task -> Task) h ts :
  (forall t, is_terminal (g t) = is_terminal t) ->
  (forall t, effective_remaining (g t) = effective_remaining t) ->
  (forall t s, g (with_status t s) = with_status (g t) s) ->
  realign_go h (map g ts) = map g (realign_go h ts).
Proof.
  intros Gt Ge Gs. revert h; induction ts as [|t r IH]; intros h; cbn [map realign_go];
    [reflexivity|].
  rewrite Gt, Ge. destruct (is_terminal t); [|destruct h]; cbn [map]; rewrite ?Gs, IH;
    reflexivity.
Qed.

Lemma pause_map_facts k p now :
  (forall t, is_terminal (pause_map k p now t) = is_terminal t) /\
  (forall t, effective_remaining (pause_map k p now t) = effective_remaining t) /\
  (forall t s, pause_map k p now (with_status t s) = with_status (pause_map k p now t) s) /\
  (forall t, ensureTaskDefaults (pause_map k p now t) = pause_map k p now (ensureTaskDefaults t)).
Proof.
  unfold pause_map; repeat split; intros; destruct t as [i ? ? ? ? ? ? ? ? ?]; cbn;
    destruct (String.eqb i k); reflexivity.
Qed.

Lemma ensureAlignedTasks_pause_map k p now ts :
  ensureAlignedTasks ts = ts -> ensureAlignedTasks (map (pause_map k p now) ts) = map (pause_map k p now) ts.
Proof.
  intros H. destruct (pause_map_facts k p now) as (Gt & Ge & Gs & Gd).
  unfold ensureAlignedTasks, realignTaskStatuses in *.
  rewrite map_map, (map_ext _ _ Gd), <- map_map, realign_go_map by assumption.
  rewrite H. reflexivity.
Qed.

(** The tasks of a reachable state are a fixed point of [ensureAlignedTasks]. *)
Lemma reachable_fixed s : reachable s -> ensureAlignedTasks (tasks s) = tasks s.
Proof.
  induction 1 as [v now|raw v now|s a _ IH].
  - reflexivity.
  - destruct (rehydrate_tasks_fixed raw v now) as [Hn Hf].
    unfold ensureAlignedTasks. rewrite map_ensureTaskDefaults_id by exact Hn. exact Hf.
  - destruct a; cbn [reducer].
    + apply ensureAlignedTasks_idem.
    + unfold reduce_tick. destruct (findActiveTaskIndex (tasks s)); [|exact IH].
      destruct (becameStruck _ _ _); apply ensureAlignedTasks_idem.
    + apply ensureAlignedTasks_idem.
    + unfold reduce_manualComplete. destruct (findActiveTaskIndex (tasks s)); [|exact IH].
      apply ensureAlignedTasks_idem.
    + apply ensureAlignedTasks_idem.
    + apply ensureAlignedTasks_idem.
    + apply ensureAlignedTasks_idem.
    + unfold reduce_reorder. destruct orderedTaskIds; [exact IH|].
      destruct (reorder_collect _ _ _ _). apply ensureAlignedTasks_idem.
    + exact IH.
    + exact IH.
    + apply (ensureAlignedTasks_pause_map taskId true now), IH.
    + apply (ensureAlignedTasks_pause_map taskId false now), IH.
Qed.

Lemma reachable_aligned s : reachable s -> aligned_go false (tasks s) = true.
Proof.
  intros H. rewrite <- (reachable_fixed s H). apply realign_go_aligned.
Qed.

Lemma aligned_go_in_progress h ts : aligned_go h ts = true ->
  forall i t, nth_error ts i = Some t -> status t = Some in_progress ->
  h = false /\ findActiveTaskIndex ts = Some i.
Proof.
  unfold findActiveTaskIndex.
  revert h; induction ts as [|x r IH]; intros h Ha i t Hn Hs; [destruct i; discriminate|].
  cbn [aligned_go] in Ha. cbn [findIndex].
  destruct (is_terminal x) eqn:T.
  - destruct i as [|i]; cbn [nth_error] in Hn.
    + injection Hn as ->. unfold is_terminal in T. rewrite Hs in T. discriminate.
    + destruct (IH h Ha i t Hn Hs) as [-> E]. rewrite E. split; reflexivity.
  - destruct (status x) as [[| | |]|] eqn:S; try discriminate.
    + destruct i as [|i]; cbn [nth_error] in Hn.
      * injection Hn as ->. congruence.
      * destruct (IH true Ha i t Hn Hs) as [E _]. discriminate.
    + apply andb_prop in Ha as [Hh Ha]. destruct h; [discriminate|].
      destruct i as [|i]; cbn [nth_error] in Hn.
      * split; reflexivity.
      * destruct (IH true Ha i t Hn Hs) as [E _]. discriminate.
Qed.

Lemma aligned_go_after ts : aligned_go true ts = true ->
  forall j t, nth_error ts j = Some t -> is_terminal t = false -> status t = Some pending.
Proof.
  induction ts as [|x r IH]; intros Ha j t Hn Ht; [destruct j; discriminate|].
  cbn [aligned_go] in Ha.
  destruct j as [|j]; cbn [nth_error] in Hn.
  - injection Hn as ->. rewrite Ht in Ha.
    destruct (status t) as [[| | |]|]; cbn in Ha; congruence.
  - apply (IH) with j; auto.
    destruct (is_terminal x); [exact Ha|].
    destruct (status x) as [[| | |]|]; cbn in Ha; congruence.
Qed.

Lemma aligned_go_rest h ts : aligned_go h ts = true ->
  forall i j t, findActiveTaskIndex ts = Some i -> (i < j)%nat ->
  nth_error ts j = Some t -> is_terminal t = false -> status t = Some pending.
Proof.
  unfold findActiveTaskIndex.
  revert h; induction ts as [|x r IH]; intros h Ha i j t Hi Hij Hn Ht; [discriminate|].
  cbn [aligned_go] in Ha. cbn [findIndex] in Hi.
  destruct j as [|j]; [lia|]. cbn [nth_error] in Hn.
  destruct (is_terminal x) eqn:T; cbn [negb] in Hi.
  - destruct (findIndex _ r) as [k|] eqn:F; cbn in Hi; [|discriminate].
    injection Hi as <-. apply (IH h Ha k j t); auto. lia.
  - apply (aligned_go_after r) with j; auto.
    destruct (status x) as [[| | |]|]; cbn in Ha; try discriminate; auto.
    destruct h; cbn in Ha; [discriminate|exact Ha].
Qed.

(** ** C2: the single-active-task invariant *)

(** C2: in every state the application can reach (the empty state, a
    rehydrated document, then any sequence of reducer actions), a task that
    is [in_progress] is the first task whose status is neither [completed]
    nor [struck], so there is at most one; and every live task after that
    first one is [pending]. *)
Theorem single_active_task (s : AppState) :
  reachable s ->
  (forall i t, nth_error (tasks s) i = Some t -> status t = Some in_progress ->
     findActiveTaskIndex (tasks s) = Some i) /\
  (forall i j t u, nth_error (tasks s) i = Some t -> status t = Some in_progress ->
     nth_error (tasks s) j = Some u -> status u = Some in_progress -> i = j) /\
  (forall i j t, findActiveTaskIndex (tasks s) = Some i -> (i < j)%nat ->
     nth_error (tasks s) j = Some t -> is_terminal t = false -> status t = Some pending).
Proof.
  intros H. pose proof (reachable_aligned s H) as Ha.
  split; [|split].
  - intros i t Hn Hs. exact (proj2 (aligned_go_in_progress false _ Ha i t Hn Hs)).
  - intros i j t u Hn Hs Hn' Hs'.
    destruct (aligned_go_in_progress false _ Ha i t Hn Hs) as [_ E].
    destruct (aligned_go_in_progress false _ Ha j u Hn' Hs') as [_ E'].
    congruence.
  - exact (aligned_go_rest false _ Ha).
Qed.

Lemma single_active_task_witness :
  reachable (reducer (reducer (createEmptyState "1.0.0" 0) (addTask "a" "first" (Some 10) 1))
               (addTask "b" "second" (Some 5) 2)) /\
  findActiveTaskIndex (tasks (reducer (reducer (createEmptyState "1.0.0" 0) (addTask "a" "first" (Some 10) 1))
               (addTask "b" "second" (Some 5) 2))) = Some 0%nat.
Proof.
  assert (H : reachable (reducer (reducer (createEmptyState "1.0.0" 0) (addTask "a" "first" (Some 10) 1))
               (addTask "b" "second" (Some 5) 2))) by (apply reach_step, reach_step, reach_empty).
  split; [exact H|].
  apply (proj1 (single_active_task _ H) 0%nat
           (mkTask "a" "first" 1 1 None (Some 10) (Some 10) (Some in_progress) None []));
    reflexivity.
Defined.

(** ** Lemmas on actions naming no task *)

Lemma not_in_ids k ts : ~ In k (map id ts) -> forall t, In t ts -> String.eqb (id t) k = false.
Proof.
  intros H t Ht. apply String.eqb_neq. intros E. apply H. rewrite <- E. now apply in_map.
Qed.

Lemma map_no_match (f : Task -> Task) k ts :
  (forall t, In t ts -> String.eqb (id t) k = false) ->
  map (fun t => if String.eqb (id t) k then f t else t) ts = ts.
Proof.
  induction ts as [|t r IH]; intros H; cbn [map]; [reflexivity|].
  rewrite H by (left; reflexivity). f_equal. apply IH. intros; apply H; right; assumption.
Qed.

Lemma filter_no_match k ts :
  (forall t, In t ts -> String.eqb (id t) k = false) ->
  filter (fun t => negb (String.eqb (id t) k)) ts = ts.
Proof.
  induction ts as [|t r IH]; intros H; cbn [filter]; [reflexivity|].
  rewrite H by (left; reflexivity). cbn [negb]. f_equal. apply IH.
  intros; apply H; right; assumption.
Qed.

Lemma fold_left_skip (f : Z -> Task -> Z) ts acc :
  (forall acc t, In t ts -> f acc t = acc) -> fold_left f ts acc = acc.
Proof.
  revert acc; induction ts as [|t r IH]; intros acc H; cbn [fold_left]; [reflexivity|].
  rewrite H by (left; reflexivity). apply IH. intros; apply H; right; assumption.
Qed.

(** ** C3: actions naming a missing task *)

Lemma AppState_eta (s : AppState) :
  s = mkState (score s) (tasks s) (stats s) (meta s) (preferences s).
Proof. destruct s; reflexivity. Qed.

(** C3, counterexample: [two_task_state] is reachable and has no task
    ["x"]. The first reducer variant's [addTime] for ["x"] leaves the tasks
    as they are but takes one point off the score (line 181,
    [score: state.score - 1], outside the map); the second variant's
    [addTime] keeps the score but still moves [meta.lastSavedAt] to the
    action's [now]. Neither returns the state it was given. *)
Lemma reducer_missing_task_id_cex :
  reachable two_task_state /\
  map id (tasks two_task_state) = ["a"; "b"]%string /\
  reduce_addTime_v1 two_task_state "x" 5 1000 =
    mkState (score two_task_state - 1) (tasks two_task_state) (stats two_task_state)
      (mkMeta 1000 "1.0.0") (preferences two_task_state) /\
  score (reduce_addTime_v1 two_task_state "x" 5 1000) = -1 /\
  reduce_addTime_v1 two_task_state "x" 5 1000 <> two_task_state /\
  reducer two_task_state (addTime "x" 5 1000) =
    mkState (score two_task_state) (tasks two_task_state) (stats two_task_state)
      (mkMeta 1000 "1.0.0") (preferences two_task_state) /\
  reducer two_task_state (addTime "x" 5 1000) <> two_task_state.
Proof.
  split; [unfold two_task_state; repeat apply reach_step; apply reach_empty|].
  split; [reflexivity|]. split; [vm_compute; reflexivity|].
  split; [vm_compute; reflexivity|].
  split; [vm_compute; intros H; injection H; intros; lia|].
  split; [vm_compute; reflexivity|].
  vm_compute. intros H. injection H. intros; lia.
Qed.

(** ** The second reducer variant on a missing task id *)

(** An [addTime], [updateTask], [deleteTask], [pauseTask] or [resumeTask]
    of the second reducer variant naming an id no task of [S] has returns
    [S] with [meta.lastSavedAt] set to the action's [now] and, for the first
    three, the tasks realigned by [ensureAlignedTasks]; score, statistics,
    preferences and app version are kept. In a reachable state the
    realignment changes nothing, so only [lastSavedAt] moves. *)
Theorem reducer_missing_task_v2 (S : AppState) (a : AppAction) (k : string) (now : Instant) :
  action_target a = Some (k, now) ->
  ~ In k (map id (tasks S)) ->
  reducer S a =
    mkState (score S) (if aligns_tasks a then ensureAlignedTasks (tasks S) else tasks S)
      (stats S) (mkMeta now (appVersion (meta S))) (preferences S) /\
  (reachable S ->
   reducer S a = mkState (score S) (tasks S) (stats S) (mkMeta now (appVersion (meta S)))
                   (preferences S)).
Proof.
  intros Ha Hk. pose proof (not_in_ids k (tasks S) Hk) as Hn.
  assert (Hr : reachable S -> ensureAlignedTasks (tasks S) = tasks S) by apply reachable_fixed.
  assert (E : reducer S a =
    mkState (score S) (if aligns_tasks a then ensureAlignedTasks (tasks S) else tasks S)
      (stats S) (mkMeta now (appVersion (meta S))) (preferences S)).
  { rewrite (AppState_eta (reducer S a)).
    destruct a; cbn [action_target] in Ha; try discriminate; injection Ha as -> ->;
      cbn [reducer aligns_tasks].
    - unfold reduce_addTime. cbn [score stats preferences meta tasks].
      rewrite (map_no_match (addTime_task _ _) k _ Hn).
      unfold addTime_delta. rewrite fold_left_skip.
      2: { intros acc t Ht. rewrite (Hn t Ht). reflexivity. }
      rewrite Z.add_0_r. reflexivity.
    - cbn [score stats preferences meta tasks].
      rewrite (map_no_match (updateTask_task _ _ _) k _ Hn).
      unfold updateTask_delta. rewrite fold_left_skip.
      2: { intros acc t Ht. rewrite (Hn t Ht). reflexivity. }
      rewrite Z.add_0_r. reflexivity.
    - unfold with_tasks_saved. cbn [score stats preferences meta tasks].
      rewrite (filter_no_match k _ Hn). reflexivity.
    - unfold with_tasks_saved. cbn [score stats preferences meta tasks].
      rewrite (map_no_match (fun t => with_paused t true _) k _ Hn). reflexivity.
    - unfold with_tasks_saved. cbn [score stats preferences meta tasks].
      rewrite (map_no_match (fun t => with_paused t false _) k _ Hn). reflexivity. }
  split; [exact E|]. intros R. rewrite E, (Hr R). destruct (aligns_tasks a); reflexivity.
Qed.

Lemma reducer_missing_task_v2_witness :
  reducer two_task_state (addTime "x" 5 1000) =
    mkState (score two_task_state) (ensureAlignedTasks (tasks two_task_state))
      (stats two_task_state) (mkMeta 1000 "1.0.0") (preferences two_task_state) /\
  reducer two_task_state (pauseTask "x" 1000) =
    mkState (score two_task_state) (tasks two_task_state) (stats two_task_state)
      (mkMeta 1000 "1.0.0") (preferences two_task_state).
Proof.
  split.
  - exact (proj1 (reducer_missing_task_v2 two_task_state (addTime "x" 5 1000) "x" 1000
                   eq_refl ltac:(vm_compute; intuition discriminate))).
  - exact (proj2 (reducer_missing_task_v2 two_task_state (pauseTask "x" 1000) "x" 1000
                   eq_refl ltac:(vm_compute; intuition discriminate))
             ltac:(unfold two_task_state; repeat apply reach_step; apply reach_empty)).
Defined.

(** ** Lemmas on [addTime] *)

Lemma realign_go_app h l1 l2 :
  realign_go h (l1 ++ l2) = realign_go h l1 ++ realign_go (h || has_live l1) l2.
Proof.
  revert h; induction l1 as [|t r IH]; intros h; cbn [app realign_go has_live existsb].
  - rewrite orb_false_r. reflexivity.
  - fold (has_live r). destruct (is_terminal t); cbn [negb orb].
    + rewrite IH. reflexivity.
    + destruct h; rewrite IH, orb_true_r; reflexivity.
Qed.

Lemma realign_go_length h ts : List.length (realign_go h ts) = List.length ts.
Proof.
  revert h; induction ts as [|t r IH]; intros h; cbn [realign_go]; [reflexivity|].
  destruct (is_terminal t); [|destruct h]; cbn [List.length]; rewrite IH; reflexivity.
Qed.

Lemma is_terminal_ensureTaskDefaults t : is_terminal (ensureTaskDefaults t) = is_terminal t.
Proof. destruct t as [? ? ? ? ? ? ? [[| | |]|] ? ?]; reflexivity. Qed.

Lemma has_live_ensureTaskDefaults ts : has_live (map ensureTaskDefaults ts) = has_live ts.
Proof.
  induction ts as [|t r IH]; [reflexivity|]. cbn [map has_live existsb].
  rewrite is_terminal_ensureTaskDefaults. fold (has_live r) (has_live (map ensureTaskDefaults r)).
  rewrite IH. reflexivity.
Qed.

Lemma ensure_addTime_task secs now a :
  let x := ensureTaskDefaults (addTime_task secs now a) in
  timeAssignedSeconds x = Some (dflt 0 (timeAssignedSeconds a) + secs) /\
  remainingSeconds x = Some (effective_remaining a + secs) /\
  history x = history a ++ [mkEntry add_time (Some secs) now] /\
  effective_remaining x = effective_remaining a + secs /\
  (is_terminal a = true -> 0 < effective_remaining a + secs ->
     status x = Some in_progress /\ completedAt x = None) /\
  (is_terminal a = true -> effective_remaining a + secs <= 0 ->
     status x = status a /\ completedAt x = completedAt a) /\
  (is_terminal a = false -> status x = Some in_progress).
Proof.
  intros x. subst x. unfold ensureTaskDefaults, addTime_task.
  cbn [status timeAssignedSeconds remainingSeconds history completedAt dflt id].
  rewrite map_id.
  destruct (is_terminal a) eqn:T; destruct (0 <? effective_remaining a + secs) eqn:P;
    cbn [andb]; rewrite ?Z.ltb_lt, ?Z.ltb_ge in P;
    repeat split; intros; try reflexivity; try discriminate; try lia.
  unfold is_terminal in T.
  destruct (status a) as [[| | |]|]; try discriminate; reflexivity.
Qed.

(** ** C4: [addTime] on an existing task *)

(** C4: [addTime k secs now] on a state whose tasks are [pre ++ a :: post],
    [a] the only task with id [k]: the task keeps its place; its assigned time
    becomes [(timeAssignedSeconds ?? 0) + secs] and its remaining time
    [(remainingSeconds ?? timeAssignedSeconds ?? 0) + secs]; exactly one
    [add_time] entry of [secs] at [now] is appended to its history. If it was
    [completed] or [struck] and the new remaining time is positive, its
    [completedAt] is cleared and its status is [in_progress] when no live
    task precedes it, [pending] otherwise (the realignment demotes it); if the
    new remaining time is not positive it keeps its status and [completedAt].
    The score drops by 1 exactly when [secs > 0] and the previous assigned
    time is positive, and is unchanged otherwise. *)
Theorem addTime_existing_task (S : AppState) (pre post : list Task) (a : Task)
    (k : string) (secs : Z) (now : Instant) :
  tasks S = pre ++ a :: post ->
  id a = k ->
  Forall (fun t => id t <> k) (pre ++ post) ->
  exists pre' a' post',
    tasks (reducer S (addTime k secs now)) = pre' ++ a' :: post' /\
    List.length pre' = List.length pre /\ List.length post' = List.length post /\
    timeAssignedSeconds a' = Some (dflt 0 (timeAssignedSeconds a) + secs) /\
    remainingSeconds a' = Some (effective_remaining a + secs) /\
    history a' = history a ++ [mkEntry add_time (Some secs) now] /\
    (is_terminal a = true -> 0 < effective_remaining a + secs ->
       completedAt a' = None /\ status a' = Some (if has_live pre then pending else in_progress)) /\
    (is_terminal a = true -> effective_remaining a + secs <= 0 ->
       completedAt a' = completedAt a /\ status a' = status a) /\
    score (reducer S (addTime k secs now))
    = score S - (if (0 <? secs) && (0 <? dflt 0 (timeAssignedSeconds a)) then 1 else 0).
Proof.
  intros Ht Hid Hf.
  assert (Hn : forall t, In t (pre ++ post) -> String.eqb (id t) k = false)
    by (intros t Hin; apply String.eqb_neq; exact (proj1 (Forall_forall _ _) Hf t Hin)).
  assert (Hd : addTime_delta k secs (tasks S)
               = - (if (0 <? secs) && (0 <? dflt 0 (timeAssignedSeconds a)) then 1 else 0)).
  { unfold addTime_delta. rewrite Ht, fold_left_app. cbn [fold_left].
    rewrite (fold_left_skip _ pre 0).
    2: { intros acc t Hin. rewrite Hn by (apply in_or_app; left; exact Hin). reflexivity. }
    rewrite fold_left_skip.
    2: { intros acc t Hin. rewrite Hn by (apply in_or_app; right; exact Hin). reflexivity. }
    rewrite Hid, String.eqb_refl. destruct (_ && _); reflexivity. }
  cbn [reducer]. unfold reduce_addTime. cbn [tasks score]. rewrite Hd.
  rewrite Ht, map_app. cbn [map]. rewrite Hid, String.eqb_refl.
  rewrite (map_no_match (addTime_task secs now) k pre), (map_no_match (addTime_task secs now) k post)
    by (intros; apply Hn; apply in_or_app; auto).
  unfold ensureAlignedTasks, realignTaskStatuses. rewrite map_app. cbn [map].
  rewrite realign_go_app. cbn [orb]. rewrite has_live_ensureTaskDefaults.
  destruct (ensure_addTime_task secs now a) as (Ha1 & Ha2 & Ha3 & Ha4 & Hrev & Hstay & Hlive).
  set (x := ensureTaskDefaults (addTime_task secs now a)) in *.
  cbn [realign_go].
  assert (Hs : score S + - (if (0 <? secs) && (0 <? dflt 0 (timeAssignedSeconds a)) then 1 else 0)
               = score S - (if (0 <? secs) && (0 <? dflt 0 (timeAssignedSeconds a)) then 1 else 0))
    by lia.
  destruct (is_terminal x) eqn:Tx; [|destruct (has_live pre) eqn:Hl];
    (eexists _, _, _; split; [reflexivity|]);
    rewrite !realign_go_length, !length_map;
    cbn [with_status timeAssignedSeconds remainingSeconds history completedAt status];
    refine (conj eq_refl (conj eq_refl (conj Ha1 (conj Ha2 (conj Ha3 (conj _ (conj _ Hs)))))));
    intros Ta P.
  - destruct (Hrev Ta P) as [Sx _]. unfold is_terminal in Tx. rewrite Sx in Tx. discriminate.
  - destruct (Hstay Ta P) as [Sx Cx]. split; assumption.
  - destruct (Hrev Ta P) as [_ Cx]. split; [exact Cx|reflexivity].
  - destruct (Hstay Ta P) as [Sx _].
    unfold is_terminal in Tx, Ta. rewrite Sx in Tx. rewrite Tx in Ta. discriminate.
  - destruct (Hrev Ta P) as [_ Cx]. split; [exact Cx|].
    rewrite Ha4. apply Z.ltb_lt in P. rewrite P. reflexivity.
  - destruct (Hstay Ta P) as [Sx _].
    unfold is_terminal in Tx, Ta. rewrite Sx in Tx. rewrite Tx in Ta. discriminate.
Qed.

Lemma addTime_existing_task_witness :
  let t1 := mkTask "a" "first" 0 0 None (Some 10) (Some 10) (Some in_progress) None [] in
  let t2 := mkTask "b" "second" 0 3 (Some 3) (Some 5) (Some 0) (Some struck) None
              [mkEntry auto_complete (Some 5) 3] in
  let S0 := mkState 4 [t1; t2] (mkStats 1 1 (Some 0)) (mkMeta 3 "1.0.0") (mkPrefs true) in
  score (reducer S0 (addTime "b" 5 9)) = 3.
Proof.
  intros t1 t2 S0.
  destruct (addTime_existing_task S0 [t1] [] t2 "b" 5 9 eq_refl eq_refl
              ltac:(cbn; constructor; [discriminate|constructor]))
    as (pre' & a' & post' & _ & _ & _ & _ & _ & _ & _ & _ & Hs).
  rewrite Hs. reflexivity.
Defined.

(** C4, counterexample: the queue [a] (live, 10 s left), [b] ([struck],
    budget 5 s). Adding 5 s to [b] revives it, but the realignment leaves it
    [pending] behind [a], not [in_progress]; and adding -1 s to [b] leaves the
    score unchanged although [b] had a positive budget. *)
Lemma addTime_existing_task_cex :
  let t1 := mkTask "a" "first" 0 0 None (Some 10) (Some 10) (Some in_progress) None [] in
  let t2 := mkTask "b" "second" 0 3 (Some 3) (Some 5) (Some 0) (Some struck) None
              [mkEntry auto_complete (Some 5) 3] in
  let S0 := mkState 4 [t1; t2] (mkStats 1 1 (Some 0)) (mkMeta 3 "1.0.0") (mkPrefs true) in
  is_terminal t2 = true /\ (0 < effective_remaining t2 + 5) /\
  option_map status (nth_error (tasks (reducer S0 (addTime "b" 5 9))) 1) = Some (Some pending) /\
  (0 < dflt 0 (timeAssignedSeconds t2)) /\
  score (reducer S0 (addTime "b" (-1) 9)) = score S0.
Proof. intros t1 t2 S0. repeat split; vm_compute; reflexivity. Qed.

(** ** C1: catch-up against replayed ticks *)

Lemma reachable_tick_many s instants : reachable s -> reachable (tick_many s instants).
Proof.
  revert s; induction instants as [|n r IH]; intros s H; cbn [tick_many]; [exact H|].
  apply IH, reach_step, H.
Qed.

(** C1, counterexample: add a task of 10 s to the empty state and tick it
    seven times one second apart: it is [in_progress] with 3 s left. Catching
    up 3 s at [t = 10000] and replaying three ticks at 8000, 9000 and 10000
    give the same statistics and the same task in every field but one: the
    [auto_complete] entry of the catch-up records the 3 s it consumed, the
    one of the ticks records the 10 s budget. *)
Lemma autoAdvance_tick_replay_cex :
  let S := tick_many (reducer (createEmptyState "1.0.0" 0) (addTask "a" "first" (Some 10) 0))
             [1000; 2000; 3000; 4000; 5000; 6000; 7000] in
  let T := tick_many S [8000; 9000; 10000] in
  reachable S /\
  tasks S = [mkTask "a" "first" 0 7000 None (Some 10) (Some 3) (Some in_progress) None []] /\
  res_stats (autoAdvance S 3 10000) = stats T /\
  res_tasks (autoAdvance S 3 10000)
  = [mkTask "a" "first" 0 10000 (Some 10000) (Some 10) (Some 0) (Some struck) None
       [mkEntry auto_complete (Some 3) 10000]] /\
  tasks T
  = [mkTask "a" "first" 0 10000 (Some 10000) (Some 10) (Some 0) (Some struck) None
       [mkEntry auto_complete (Some 10) 10000]].
Proof.
  intros S T. split.
  - apply reachable_tick_many, reach_step, reach_empty.
  - repeat split; vm_compute; reflexivity.
Qed.

(** ** Catch-up against replayed ticks, up to stamps *)

Lemma realign_go_realign_go h h' ts : realign_go h' (realign_go h ts) = realign_go h' ts.
Proof.
  revert h h'; induction ts as [|t r IH]; intros h h'; cbn [realign_go]; [reflexivity|].
  destruct (is_terminal t) eqn:T.
  - cbn [realign_go]. rewrite T, IH. reflexivity.
  - assert (L : forall s, s = pending \/ s = in_progress ->
                realign_go h' (with_status t s :: realign_go true r) = realign_go h' (t :: r)).
    { intros s Hs. cbn [realign_go].
      rewrite is_terminal_with_status, T, effective_remaining_with_status, !IH.
      destruct Hs as [->| ->]; destruct h'; rewrite ?with_status_twice; reflexivity. }
    destruct h; (etransitivity; [apply L|cbn [realign_go]; rewrite T; reflexivity]); auto.
    destruct (0 <? effective_remaining t); auto.
Qed.

Lemma realign_cons_realign h y post :
  realign_go h (y :: realign_go true post) = realign_go h (y :: post).
Proof.
  cbn [realign_go]. destruct (is_terminal y); [|destruct h]; rewrite realign_go_realign_go;
    reflexivity.
Qed.

Lemma realign_go_with_status h a s post :
  is_terminal a = false -> s = pending \/ s = in_progress ->
  realign_go h (with_status a s :: post) = realign_go h (a :: post).
Proof.
  intros T Hs. cbn [realign_go].
  rewrite is_terminal_with_status, T, effective_remaining_with_status.
  destruct Hs as [->| ->]; destruct h; rewrite ?with_status_twice; reflexivity.
Qed.

Lemma tick_task_normalized n a : normalized a -> normalized (tick_task n a).
Proof.
  intros Ha. unfold tick_task.
  destruct (remainingSeconds a) as [r|] eqn:R; [|exact Ha].
  destruct (r <=? 0); [exact Ha|]. destruct (is_paused a); [exact Ha|].
  destruct (0 <? r - 1); split; cbn; discriminate.
Qed.

Lemma tick_task_with_status_live n a s r :
  is_paused a = false -> remainingSeconds a = Some r -> 0 < r ->
  tick_task n (with_status a s) = tick_task n a.
Proof.
  intros P R Hr. unfold tick_task. destruct a; cbn in *. subst.
  assert (E : (r <=? 0) = false) by (apply Z.leb_gt; lia). rewrite E.
  unfold is_paused in *; cbn in *. rewrite P. reflexivity.
Qed.

Lemma tick_task_stuck n a s :
  match remainingSeconds a with Some r => r <= 0 | None => True end ->
  tick_task n (with_status a s) = with_status a s /\ tick_task n a = a.
Proof.
  intros R. unfold tick_task. destruct a as [? ? ? ? ? ? [r|] ? ? ?]; cbn in *; [|split; reflexivity].
  assert (E : (r <=? 0) = true) by (apply Z.leb_le; lia). rewrite E. split; reflexivity.
Qed.

Lemma updateStatsOnCompletion_bump s n :
  updateStatsOnCompletion s n = bump_stats (stats s) (dateKey n).
Proof.
  unfold updateStatsOnCompletion, bump_stats; cbv zeta.
  destruct (stats s) as [tc td [d|]]; cbn; [|reflexivity].
  destruct (Z.eqb_spec d (dateKey n)) as [->|]; reflexivity.
Qed.

Lemma tick_many_app s l1 l2 : tick_many s (l1 ++ l2) = tick_many (tick_many s l1) l2.
Proof. revert s; induction l1 as [|n r IH]; intros s; [reflexivity|]. apply IH. Qed.

Lemma tick_many_fixed s ins : (forall n, reduce_tick s n = s) -> tick_many s ins = s.
Proof.
  intros H. induction ins as [|n r IH]; [reflexivity|]. cbn [tick_many reducer].
  rewrite H. exact IH.
Qed.

(** One [tick] on a realigned queue whose first live task is [a]. *)
Lemma tick_canonical sc st me pr pre a post n :
  terminal_all pre -> is_terminal a = false ->
  Forall normalized pre -> normalized a -> Forall normalized post ->
  is_paused a = false ->
  reduce_tick (mkState sc (realign_go false (pre ++ a :: post)) st me pr) n =
  let hit := match remainingSeconds a with Some r => (0 <? r) && negb (0 <? r - 1) | None => false end in
  mkState (if hit then sc + 1 else sc) (realign_go false (pre ++ tick_task n a :: post))
    (if hit then bump_stats st (dateKey n) else st) me pr.
Proof.
  intros Hpre Ha Npre Na Npost Pa.
  set (s0 := if 0 <? effective_remaining a then in_progress else pending).
  assert (Hs0 : s0 = pending \/ s0 = in_progress)
    by (unfold s0; destruct (0 <? effective_remaining a); auto).
  assert (E : realign_go false (pre ++ a :: post) = pre ++ with_status a s0 :: realign_go true post)
    by (rewrite realign_go_terminal_prefix by exact Hpre; cbn [realign_go]; rewrite Ha; reflexivity).
  assert (La : is_terminal (with_status a s0) = false)
    by (rewrite is_terminal_with_status; destruct Hs0 as [-> | ->]; reflexivity).
  unfold reduce_tick. cbn [tasks]. rewrite E.
  unfold findActiveTaskIndex. rewrite findIndex_at by (exact Hpre || now rewrite La).
  rewrite map_index_at.
  (* the ticked task, and the aligned queue around it *)
  assert (Y : exists y, tick_task n (with_status a s0) = y /\
              realign_go false (pre ++ y :: realign_go true post)
              = realign_go false (pre ++ tick_task n a :: post) /\ normalized y).
  { destruct (remainingSeconds a) as [r|] eqn:R.
    - destruct (Z.leb_spec r 0) as [Hr|Hr].
      + destruct (tick_task_stuck n a s0) as [T1 T2]; [rewrite R; exact Hr|].
        exists (with_status a s0). rewrite T1, T2.
        split; [reflexivity|split; [|apply with_status_normalized, Na]].
        rewrite !realign_go_terminal_prefix by exact Hpre.
        rewrite realign_cons_realign, realign_go_with_status; auto.
      + exists (tick_task n a). rewrite (tick_task_with_status_live n a s0 r Pa R Hr).
        split; [reflexivity|split; [|apply tick_task_normalized, Na]].
        rewrite !realign_go_terminal_prefix by exact Hpre.
        rewrite realign_cons_realign. reflexivity.
    - destruct (tick_task_stuck n a s0) as [T1 T2]; [rewrite R; exact I|].
      exists (with_status a s0). rewrite T1, T2.
      split; [reflexivity|split; [|apply with_status_normalized, Na]].
      rewrite !realign_go_terminal_prefix by exact Hpre.
      rewrite realign_cons_realign, realign_go_with_status; auto. }
  destruct Y as (y & Ey & Ry & Ny). rewrite Ey.
  assert (A : ensureAlignedTasks (pre ++ y :: realign_go true post)
              = realign_go false (pre ++ tick_task n a :: post)).
  { unfold ensureAlignedTasks, realignTaskStatuses.
    rewrite map_ensureTaskDefaults_id; [exact Ry|].
    apply Forall_app; split; [exact Npre|]. constructor; [exact Ny|].
    apply realign_go_normalized, Npost. }
  assert (B : becameStruck (pre ++ with_status a s0 :: realign_go true post)
                (pre ++ y :: realign_go true post) (List.length pre)
              = match remainingSeconds a with
                | Some r => (0 <? r) && negb (0 <? r - 1) | None => false end).
  { unfold becameStruck. rewrite !nth_error_at.
    replace (remainingSeconds (with_status a s0)) with (remainingSeconds a)
      by (destruct a; reflexivity).
    destruct (remainingSeconds a) as [r|] eqn:R; [|reflexivity].
    destruct (Z.ltb_spec 0 r) as [Hr|Hr]; cbn [andb]; [|reflexivity].
    rewrite <- Ey, (tick_task_with_status_live n a s0 r Pa R Hr).
    unfold tick_task. rewrite R.
    replace (r <=? 0) with false by (symmetry; apply Z.leb_gt; lia).
    rewrite Pa. destruct (0 <? r - 1); reflexivity. }
  cbv zeta. rewrite B. unfold with_tasks; cbn [score tasks stats meta preferences]. rewrite A.
  destruct (match remainingSeconds a with
            | Some r => (0 <? r) && negb (0 <? r - 1) | None => false end);
    rewrite ?updateStatsOnCompletion_bump; reflexivity.
Qed.

Lemma tick_task_decrement n a r :
  is_paused a = false -> remainingSeconds a = Some r -> 1 < r ->
  tick_task n a = partial_task a (r - 1) n.
Proof.
  intros P R Hr. unfold tick_task. rewrite R.
  replace (r <=? 0) with false by (symmetry; apply Z.leb_gt; lia).
  replace (0 <? r - 1) with true by (symmetry; apply Z.ltb_lt; lia).
  rewrite P. reflexivity.
Qed.

(** Ticks that do not exhaust the first live task count it down. *)
Lemma tick_countdown sc st me pr pre post : forall ins a r,
  terminal_all pre -> Forall normalized pre -> Forall normalized post ->
  is_terminal a = false -> normalized a -> is_paused a = false ->
  remainingSeconds a = Some r -> Z.of_nat (List.length ins) < r ->
  exists a', tick_many (mkState sc (realign_go false (pre ++ a :: post)) st me pr) ins
             = mkState sc (realign_go false (pre ++ a' :: post)) st me pr /\
    task_core a' = task_core a /\ remainingSeconds a' = Some (r - Z.of_nat (List.length ins)) /\
    is_terminal a' = false /\ normalized a' /\ is_paused a' = false /\
    (ins = [] -> a' = a) /\ (ins <> [] -> status a' = Some in_progress).
Proof.
  intros ins; induction ins as [|n rest IH]; intros a r Hpre Npre Npost Ha Na Pa R Hl.
  - exists a. cbn [tick_many List.length]. rewrite Z.sub_0_r.
    refine (conj eq_refl (conj eq_refl (conj R (conj Ha (conj Na (conj Pa (conj (fun _ => eq_refl) _))))))). intros H; exfalso; apply H; reflexivity.
  - cbn [List.length] in Hl. rewrite Nat2Z.inj_succ in Hl.
    cbn [tick_many reducer]. rewrite tick_canonical by assumption. cbv zeta. rewrite R.
    replace ((0 <? r) && negb (0 <? r - 1)) with false
      by (replace (0 <? r - 1) with true by (symmetry; apply Z.ltb_lt; lia);
          rewrite andb_false_r; reflexivity).
    rewrite (tick_task_decrement n a r Pa R) by lia.
    destruct (IH (partial_task a (r - 1) n) (r - 1) Hpre Npre Npost
                 (partial_task_live a (r - 1) n) (partial_task_normalized a (r - 1) n)
                 Pa eq_refl ltac:(lia))
      as (a' & E & C & R' & L' & N' & P' & Z' & S').
    exists a'. rewrite E. split; [reflexivity|].
    split; [rewrite C; destruct a; reflexivity|].
    split; [rewrite R'; cbn [List.length]; f_equal; lia|].
    do 3 (split; [assumption|]). split; [discriminate|]. intros _.
    destruct rest; [rewrite Z' by reflexivity; reflexivity|]. apply S'. discriminate.
Qed.

Lemma erase_stamps_fields x y : erase_stamps x = erase_stamps y ->
  status x = status y /\ remainingSeconds x = remainingSeconds y /\
  timeAssignedSeconds x = timeAssignedSeconds y /\ isPaused x = isPaused y.
Proof.
  destruct x, y; unfold erase_stamps; cbn. intros H; injection H; intros; subst; auto.
Qed.

Lemma erase_stamps_terminal x y : erase_stamps x = erase_stamps y -> is_terminal x = is_terminal y.
Proof. intros H; apply erase_stamps_fields in H as (S & _). unfold is_terminal; rewrite S; reflexivity. Qed.

Lemma erase_stamps_effective x y :
  erase_stamps x = erase_stamps y -> effective_remaining x = effective_remaining y.
Proof.
  intros H; apply erase_stamps_fields in H as (_ & R & A & _).
  unfold effective_remaining; rewrite R, A; reflexivity.
Qed.

Lemma erase_stamps_normalized x y : erase_stamps x = erase_stamps y -> normalized y -> normalized x.
Proof.
  intros H; apply erase_stamps_fields in H as (S & R & A & _).
  unfold normalized; rewrite S, R, A; exact (fun h => h).
Qed.

Lemma erase_stamps_paused x y : erase_stamps x = erase_stamps y -> is_paused x = is_paused y.
Proof. intros H; apply erase_stamps_fields in H as (_ & _ & _ & P). unfold is_paused; rewrite P; reflexivity. Qed.

Lemma Forall_erase_stamps (P : Task -> Prop) :
  (forall x y, erase_stamps x = erase_stamps y -> P y -> P x) ->
  forall L1 L2, map erase_stamps L1 = map erase_stamps L2 -> Forall P L2 -> Forall P L1.
Proof.
  intros HP L1; induction L1 as [|x r IH]; intros [|y r2] E F; try discriminate; [constructor|].
  cbn [map] in E. assert (Exy : erase_stamps x = erase_stamps y) by congruence.
  assert (Er : map erase_stamps r = map erase_stamps r2) by congruence.
  inversion F as [|? ? Hy Hr]; subst.
  constructor; [exact (HP x y Exy Hy)|exact (IH r2 Er Hr)].
Qed.

Lemma terminal_all_erase L1 L2 :
  map erase_stamps L1 = map erase_stamps L2 -> terminal_all L2 -> terminal_all L1.
Proof.
  apply Forall_erase_stamps. intros x y E H. rewrite (erase_stamps_terminal x y E). exact H.
Qed.

Lemma map_erase_split Lt pre a post :
  map erase_stamps Lt = map erase_stamps (pre ++ a :: post) ->
  exists pre' a' post', Lt = pre' ++ a' :: post' /\
    map erase_stamps pre' = map erase_stamps pre /\ erase_stamps a' = erase_stamps a /\
    map erase_stamps post' = map erase_stamps post.
Proof.
  rewrite map_app; cbn [map]. intros E.
  destruct (map_eq_app _ _ _ _ E) as (l1 & l2 & -> & E1 & E2).
  destruct (map_eq_cons _ _ E2) as (a' & post' & -> & Ea & Ep).
  exists l1, a', post'. auto.
Qed.

Lemma realign_go_erase h L :
  map erase_stamps (realign_go h L) = realign_go h (map erase_stamps L).
Proof.
  symmetry. apply realign_go_map.
  - intros [] ; reflexivity.
  - intros [? ? ? ? ? ? [] ? ? ?]; reflexivity.
  - intros [] s; reflexivity.
Qed.

Lemma erase_stamps_strike n a' at0 a m now :
  task_core a' = task_core at0 -> erase_stamps at0 = erase_stamps a ->
  remainingSeconds a' = Some 1 -> is_paused a' = false ->
  erase_stamps (tick_task n a') = erase_stamps (strike_task a m now).
Proof.
  intros C E R P. unfold tick_task. rewrite R, P. cbn.
  destruct a' as [i1 t1 c1 u1 d1 s1 r1 st1 p1 h1], at0 as [i2 t2 c2 u2 d2 s2 r2 st2 p2 h2],
    a as [i3 t3 c3 u3 d3 s3 r3 st3 p3 h3].
  unfold task_core, erase_stamps in *; cbn in *.
  injection C; intros; subst. injection E; intros; subst.
  rewrite !map_app, H. reflexivity.
Qed.

Lemma erase_stamps_partial a' at0 a x now :
  task_core a' = task_core at0 -> erase_stamps at0 = erase_stamps a ->
  remainingSeconds a' = Some x -> status a' = Some in_progress ->
  erase_stamps a' = erase_stamps (partial_task a x now).
Proof.
  intros C E R S.
  destruct a' as [i1 t1 c1 u1 d1 s1 r1 st1 p1 h1], at0 as [i2 t2 c2 u2 d2 s2 r2 st2 p2 h2],
    a as [i3 t3 c3 u3 d3 s3 r3 st3 p3 h3].
  unfold task_core, erase_stamps in *; cbn in *. subst.
  injection C; intros; subst. injection E; intros; subst. congruence.
Qed.

Lemma reduce_tick_idle sc L st me pr n :
  terminal_all L -> reduce_tick (mkState sc (realign_go false L) st me pr) n
                    = mkState sc (realign_go false L) st me pr.
Proof.
  intros H. unfold reduce_tick. cbn [tasks].
  assert (E : realign_go false L = L)
    by (rewrite <- (app_nil_r L), realign_go_terminal_prefix by exact H; reflexivity).
  rewrite E. unfold findActiveTaskIndex. rewrite findIndex_all_false by exact H. reflexivity.
Qed.

Lemma Forall_split {A} (P : A -> Prop) pre a post :
  Forall P (pre ++ a :: post) -> Forall P pre /\ P a /\ Forall P post.
Proof. rewrite Forall_app. intros [H1 H2]. inversion H2; subst. auto. Qed.

Lemma live_remaining a :
  normalized a -> 0 < effective_remaining a -> remainingSeconds a = Some (effective_remaining a).
Proof.
  unfold normalized, effective_remaining. intros [_ N].
  destruct (remainingSeconds a) eqn:R; [reflexivity|].
  destruct (timeAssignedSeconds a) eqn:T; [|cbn; lia].
  exfalso; apply N; [discriminate|reflexivity].
Qed.

(** The catch-up loop against replayed ticks, up to stamps: [Lt] is the
    queue of the replayed state before realignment. *)
Lemma replay_run_loop now me pr : forall fuel l r ins sc Lt,
  run_loop fuel now l = Some r ->
  secondsRemaining l = Z.of_nat (List.length ins) ->
  Forall (fun x => dateKey x = dateKey now) ins ->
  Forall normalized (l_tasks l) -> Forall (fun t => is_paused t = false) (l_tasks l) ->
  map erase_stamps Lt = map erase_stamps (l_tasks l) ->
  exists sc' Lt', tick_many (mkState sc (realign_go false Lt) (l_stats l) me pr) ins
       = mkState sc' (realign_go false Lt') (l_stats r) me pr /\
     map erase_stamps Lt' = map erase_stamps (l_tasks r).
Proof.
  induction fuel as [|f IH]; intros l r ins sc Lt Hrun Hsec Hday Hn Hp He; [discriminate|].
  cbn [run_loop] in Hrun.
  destruct (loop_body_spec now l)
    as [[Hs E]|[[Hs [Ht E]]|(pre & a & post & El & Hpre & Ha & Hs & C)]].
  - rewrite E in Hrun; injection Hrun as <-.
    destruct ins as [|n ins]; [|cbn [List.length] in Hsec; lia].
    exists sc, Lt. split; [reflexivity|exact He].
  - rewrite E in Hrun; injection Hrun as <-.
    exists sc, Lt. split; [|exact He]. apply tick_many_fixed. intros n.
    apply reduce_tick_idle. eapply terminal_all_erase; [exact He|exact Ht].
  - pose proof He as He0. rewrite El in He, Hn, Hp.
    destruct (map_erase_split _ _ _ _ He) as (pre' & a' & post' & -> & Epre & Ea & Epost).
    apply Forall_split in Hn as (Npre & Na & Npost).
    apply Forall_split in Hp as (Ppre & Pa & Ppost).
    assert (Hpre' : terminal_all pre') by (eapply terminal_all_erase; eauto).
    assert (Ha' : is_terminal a' = false) by (rewrite (erase_stamps_terminal _ _ Ea); exact Ha).
    assert (Npre' : Forall normalized pre').
    { eapply Forall_erase_stamps; [|exact Epre|exact Npre]. apply erase_stamps_normalized. }
    assert (Npost' : Forall normalized post').
    { eapply Forall_erase_stamps; [|exact Epost|exact Npost]. apply erase_stamps_normalized. }
    assert (Na' : normalized a') by (eapply erase_stamps_normalized; eauto).
    assert (Pa' : is_paused a' = false) by (rewrite (erase_stamps_paused _ _ Ea); exact Pa).
    assert (Eff : effective_remaining a' = effective_remaining a) by (apply erase_stamps_effective, Ea).
    destruct C as [[Hr E]|[[Hr E]|[Hr E]]]; rewrite E in Hrun.
    + (* the first live task has no time left: every tick leaves the state alone *)
      injection Hrun as <-. exists sc, (pre' ++ a' :: post'). split; [|exact He0].
      apply tick_many_fixed. intros n.
      rewrite tick_canonical by assumption. cbv zeta.
      assert (Hm : match remainingSeconds a' with Some r0 => r0 <= 0 | None => True end).
      { rewrite <- Eff in Hr. unfold effective_remaining in Hr.
        destruct (remainingSeconds a'); [exact Hr|exact I]. }
      rewrite (proj2 (tick_task_stuck n a' pending Hm)).
      destruct (remainingSeconds a') as [r0|]; [|reflexivity].
      replace (0 <? r0) with false by (symmetry; apply Z.ltb_ge; exact Hm). reflexivity.
    + (* strike: [m - 1] ticks count down, the [m]-th strikes *)
      set (m := effective_remaining a) in *.
      assert (Ra' : remainingSeconds a' = Some m)
        by (rewrite <- Eff; apply live_remaining; [exact Na'|lia]).
      set (k := Z.to_nat (m - 1)).
      assert (Lk : (k < List.length ins)%nat) by (unfold k; lia).
      assert (Eins : ins = firstn k ins ++ skipn k ins) by (symmetry; apply firstn_skipn).
      destruct (skipn k ins) as [|nm ins2] eqn:Sk.
      { exfalso. assert (L0 := length_skipn k ins). rewrite Sk in L0. cbn in L0. lia. }
      assert (Lins : List.length ins = (k + S (List.length ins2))%nat).
      { rewrite Eins at 1. rewrite length_app, length_firstn. cbn [List.length]. lia. }
      rewrite Eins in Hday. apply Forall_app in Hday as [_ Hday2].
      inversion Hday2 as [|? ? Dnm Dins2]; subst.
      destruct (tick_countdown sc (l_stats l) me pr pre' post' (firstn k ins) a' m
                  Hpre' Npre' Npost' Ha' Na' Pa' Ra')
        as (a1 & T1 & C1 & R1 & L1 & N1 & P1 & _ & _).
      { rewrite length_firstn. unfold k. lia. }
      rewrite length_firstn in R1.
      replace (m - Z.of_nat (Nat.min k (List.length ins))) with 1 in R1 by (unfold k; lia).
      destruct (IH _ r ins2 (sc + 1) (pre' ++ tick_task nm a1 :: post') Hrun)
        as (sc' & Lt' & T2 & E2).
      { cbn [secondsRemaining]. rewrite Hsec, Lins. lia. }
      { exact Dins2. }
      { cbn [l_tasks]. rewrite Forall_app. split; [exact Npre|].
        constructor; [apply strike_task_normalized|exact Npost]. }
      { cbn [l_tasks]. rewrite Forall_app. split; [exact Ppre|]. constructor; [exact Pa|exact Ppost]. }
      { cbn [l_tasks]. rewrite !map_app. cbn [map].
        rewrite Epre, Epost, (erase_stamps_strike nm a1 a' a m now C1 Ea R1 P1). reflexivity. }
      exists sc', Lt'. split; [|exact E2].
      rewrite Eins, tick_many_app, T1. cbn [tick_many reducer].
      rewrite tick_canonical by assumption. cbv zeta. rewrite R1. cbn [Z.ltb Z.compare andb negb].
      rewrite Dnm. exact T2.
    + (* partial: every tick counts down *)
      set (m := effective_remaining a) in *.
      assert (Ra' : remainingSeconds a' = Some m)
        by (rewrite <- Eff; apply live_remaining; [exact Na'|lia]).
      destruct (tick_countdown sc (l_stats l) me pr pre' post' ins a' m
                  Hpre' Npre' Npost' Ha' Na' Pa' Ra' ltac:(lia))
        as (a1 & T1 & C1 & R1 & L1 & N1 & P1 & _ & S1).
      destruct (IH _ r [] sc (pre' ++ a1 :: post') Hrun)
        as (sc' & Lt' & T2 & E2).
      { reflexivity. }
      { constructor. }
      { cbn [l_tasks]. rewrite Forall_app. split; [exact Npre|].
        constructor; [apply partial_task_normalized|exact Npost]. }
      { cbn [l_tasks]. rewrite Forall_app. split; [exact Ppre|]. constructor; [exact Pa|exact Ppost]. }
      { cbn [l_tasks]. rewrite !map_app. cbn [map]. rewrite Epre, Epost.
        rewrite (erase_stamps_partial a1 a' a (m - secondsRemaining l) now C1 Ea).
        - reflexivity.
        - rewrite R1, <- Hsec. reflexivity.
        - apply S1. intros ->. cbn in Hsec. lia. }
      exists sc', Lt'. split; [|exact E2]. rewrite T1. exact T2.
Qed.

(** Catch-up against replayed ticks: from a state the application can reach
    with no paused task, catching up [N] seconds at [now] gives, up to the
    time stamps and the recorded amounts of the history entries, the same
    tasks as [N] ticks stamped on the day of [now], and the same statistics.
    What the stamps blank out is exactly where the two paths can differ:
    the instants written into the tasks, and the amount recorded by the
    [auto_complete] entry. *)
Theorem autoAdvance_tick_replay (s : AppState) (now : Instant) (ins : list Instant) :
  reachable s ->
  Forall (fun t => is_paused t = false) (tasks s) ->
  Forall (fun n => dateKey n = dateKey now) ins ->
  map erase_stamps (res_tasks (autoAdvance s (Z.of_nat (List.length ins)) now))
  = map erase_stamps (tasks (tick_many s ins)) /\
  res_stats (autoAdvance s (Z.of_nat (List.length ins)) now) = stats (tick_many s ins).
Proof.
  intros HR HP HD.
  assert (Fx := reachable_fixed s HR). unfold ensureAlignedTasks, realignTaskStatuses in Fx.
  assert (NS : Forall normalized (tasks s))
    by (rewrite <- Fx; apply realign_go_normalized, map_ensureTaskDefaults_normalized).
  rewrite map_ensureTaskDefaults_id in Fx by exact NS.
  unfold autoAdvance. rewrite map_ensureTaskDefaults_id by exact NS. cbv zeta.
  destruct (run_loop_total now (Datatypes.S (Datatypes.S (List.length (tasks s))))
              (mkLoop (tasks s) (stats s) (Z.of_nat (List.length ins)))) as [r Hr].
  { cbn [secondsRemaining l_tasks]. pose proof (count_live_le (tasks s)).
    destruct (_ <=? 0); lia. }
  rewrite Hr.
  destruct (replay_run_loop now (meta s) (preferences s) _ _ r ins (score s) (tasks s) Hr
              eq_refl HD NS HP eq_refl) as (sc' & Lt' & T & E).
  cbn [l_stats] in T. rewrite Fx in T.
  replace (mkState (score s) (tasks s) (stats s) (meta s) (preferences s)) with s in T
    by (destruct s; reflexivity).
  rewrite T. cbn [res_tasks res_stats tasks stats]. split; [|reflexivity].
  unfold realignTaskStatuses. rewrite !realign_go_erase, E. reflexivity.
Qed.

(** Two tasks of 10 s and 5 s, the first ticked down to 3 s: six seconds of
    catch-up strike it and run the second down to 2 s, as six ticks do. *)
Lemma autoAdvance_tick_replay_witness :
  let S := tick_many (reducer (reducer (createEmptyState "1.0.0" 0)
                        (addTask "a" "first" (Some 10) 0)) (addTask "b" "second" (Some 5) 0))
             [1000; 2000; 3000; 4000; 5000; 6000; 7000] in
  let ins := [8000; 9000; 10000; 11000; 12000; 13000] in
  reachable S /\ Forall (fun t => is_paused t = false) (tasks S) /\
  Forall (fun n => dateKey n = dateKey 13000) ins /\
  map erase_stamps (res_tasks (autoAdvance S (Z.of_nat (List.length ins)) 13000))
  = map erase_stamps (tasks (tick_many S ins)) /\
  res_stats (autoAdvance S (Z.of_nat (List.length ins)) 13000) = stats (tick_many S ins).
Proof.
  intros S ins.
  assert (HR : reachable S) by (apply reachable_tick_many, reach_step, reach_step, reach_empty).
  assert (HP : Forall (fun t => is_paused t = false) (tasks S))
    by (vm_compute; repeat constructor).
  assert (HD : Forall (fun n => dateKey n = dateKey 13000) ins)
    by (repeat constructor).
  exact (conj HR (conj HP (conj HD (autoAdvance_tick_replay S 13000 ins HR HP HD)))).
Defined.

(** ** The timer of [useAppStore] *)

Lemma dispatchTick_clock_spec c nowMs previous :
  lastTickTimestamp c = Some previous ->
  let deltaMs := nowMs - previous + tickCarryover c in
  dispatchTick_clock c nowMs
  = (mkClock (Some nowMs) (deltaMs mod 1000),
     map (fun i => previous + Z.of_nat i * 1000) (seq 1 (Z.to_nat (deltaMs / 1000)))).
Proof.
  intros Hp deltaMs. unfold dispatchTick_clock. rewrite Hp. fold deltaMs.
  rewrite (Z.mod_eq deltaMs 1000) by lia.
  replace (deltaMs - deltaMs / 1000 * 1000) with (deltaMs - 1000 * (deltaMs / 1000)) by lia.
  destruct (Z.leb_spec (deltaMs / 1000) 0) as [H|H]; [|reflexivity].
  replace (Z.to_nat (deltaMs / 1000)) with 0%nat by lia. reflexivity.
Qed.

(** The carry the timer keeps is always a fraction of a second in
    [[0, 1000)], whatever timestamps arrive, backward jumps included. *)
Theorem dispatchTick_carry_bounded (c : TickClock) (nowMs : Z) :
  0 <= tickCarryover (fst (dispatchTick_clock c nowMs)) < 1000.
Proof.
  destruct (lastTickTimestamp c) as [p|] eqn:Hp.
  - rewrite (dispatchTick_clock_spec c nowMs p Hp). cbn. apply Z.mod_pos_bound. lia.
  - unfold dispatchTick_clock. rewrite Hp. cbn. lia.
Qed.

Lemma last_cons_default (x d : Z) l : last (x :: l) d = last l x.
Proof.
  revert x d; induction l as [|y r IH]; intros x d; [reflexivity|].
  change (last (y :: r) d = last (y :: r) x). rewrite !IH. reflexivity.
Qed.

(** Bookkeeping of a run from a started clock: the seconds counted (with
    the negative counts of backward jumps) against the ticks dispatched. *)
Lemma timer_run_count : forall stamps p cr,
  0 <= cr < 1000 ->
  let '(c', ins) := timer_run (mkClock (Some p) cr) stamps in
  exists k, 1000 * k + tickCarryover c' = last stamps p - p + cr /\
    0 <= tickCarryover c' < 1000 /\ lastTickTimestamp c' = Some (last stamps p) /\
    k <= Z.of_nat (List.length ins) /\
    (Sorted Z.le (p :: stamps) -> k = Z.of_nat (List.length ins)).
Proof.
  induction stamps as [|t rest IH]; intros p cr Hcr; cbn [timer_run].
  - exists 0. cbn. repeat split; try lia; reflexivity.
  - rewrite (dispatchTick_clock_spec (mkClock (Some p) cr) t p eq_refl). cbn [tickCarryover].
    set (d := t - p + cr).
    assert (Hm : 0 <= d mod 1000 < 1000) by (apply Z.mod_pos_bound; lia).
    specialize (IH t (d mod 1000) Hm).
    destruct (timer_run (mkClock (Some t) (d mod 1000)) rest) as [c2 i2].
    destruct IH as (k & E & B & L & K & S).
    exists (d / 1000 + k). rewrite length_app, length_map, length_seq.
    assert (Ed := Z.div_mod d 1000 ltac:(lia)).
    assert (Hlast : last (t :: rest) p = last rest t)
      by apply last_cons_default.
    rewrite Hlast. repeat split; try lia; try assumption.
    intros Hs. inversion Hs as [|? ? Hs' Hhd]; subst.
    inversion Hhd; subst. assert (Hd : 0 <= d) by (unfold d; lia).
    rewrite (S Hs'). assert (0 <= d / 1000) by (apply Z.div_pos; lia). lia.
Qed.

(** Timer callbacks never lose a second: over any run that starts from
    fresh refs, at least [floor((last - first) / 1000)] ticks are
    dispatched, whatever order the timestamps come in. *)
Theorem timer_run_no_lost_second (c0 : TickClock) (t0 : Z) (rest : list Z) :
  lastTickTimestamp c0 = None ->
  (last (t0 :: rest) t0 - t0) / 1000 <= Z.of_nat (List.length (snd (timer_run c0 (t0 :: rest)))).
Proof.
  intros H0. cbn [timer_run]. unfold dispatchTick_clock at 1. rewrite H0.
  pose proof (timer_run_count rest t0 0 ltac:(lia)) as R.
  destruct (timer_run (mkClock (Some t0) 0) rest) as [c' ins]. cbn [snd app].
  destruct R as (k & E & B & _ & K & _).
  assert (Hl : last (t0 :: rest) t0 = last rest t0) by apply last_cons_default.
  rewrite Hl. replace (last rest t0 - t0) with (k * 1000 + tickCarryover c') by lia.
  rewrite Z.div_add_l, Z.div_small by lia. lia.
Qed.

(** With timestamps that never go back, the timer dispatches exactly
    [floor((last - first) / 1000)] ticks and keeps the remainder as carry:
    no drift, however the callbacks are spaced. *)
Theorem timer_run_exact (c0 : TickClock) (t0 : Z) (rest : list Z) :
  lastTickTimestamp c0 = None -> Sorted Z.le (t0 :: rest) ->
  let '(c', ins) := timer_run c0 (t0 :: rest) in
  Z.of_nat (List.length ins) = (last (t0 :: rest) t0 - t0) / 1000 /\
  tickCarryover c' = (last (t0 :: rest) t0 - t0) mod 1000.
Proof.
  intros H0 Hs. cbn [timer_run]. unfold dispatchTick_clock at 1. rewrite H0.
  pose proof (timer_run_count rest t0 0 ltac:(lia)) as R.
  destruct (timer_run (mkClock (Some t0) 0) rest) as [c' ins]. cbn [app].
  destruct R as (k & E & B & _ & _ & K).
  rewrite <- (K Hs) in *.
  assert (Hl : last (t0 :: rest) t0 = last rest t0) by apply last_cons_default.
  rewrite Hl. replace (last rest t0 - t0) with (k * 1000 + tickCarryover c') by lia.
  rewrite Z.div_add_l, Z.div_small, Z.add_0_r by lia. split; [reflexivity|].
  rewrite Z.add_comm, Z.mod_add, Z.mod_small by lia. reflexivity.
Qed.

Lemma StronglySorted_app_lt (l1 l2 : list Z) :
  StronglySorted Z.lt l1 -> StronglySorted Z.lt l2 ->
  (forall x y, In x l1 -> In y l2 -> x < y) -> StronglySorted Z.lt (l1 ++ l2).
Proof.
  induction l1 as [|a r IH]; intros H1 H2 H; [exact H2|].
  inversion H1 as [|? ? Hr Ha]; subst. cbn [app]. constructor.
  - apply IH; auto. intros x y Hx Hy. apply H; cbn; auto.
  - rewrite Forall_app. split; [exact Ha|]. rewrite Forall_forall. intros y Hy. apply H; cbn; auto.
Qed.

Lemma tick_times_sorted p s n :
  StronglySorted Z.lt (map (fun i => p + Z.of_nat i * 1000) (seq s n)).
Proof.
  revert s; induction n as [|n IH]; intros s; [constructor|].
  cbn [seq map]. constructor; [apply IH|].
  rewrite Forall_forall. intros y Hy. apply in_map_iff in Hy as (i & <- & Hi).
  apply in_seq in Hi. lia.
Qed.

Lemma sorted_le_last t rest : Sorted Z.le (t :: rest) -> t <= last rest t.
Proof.
  revert t; induction rest as [|z r IH]; intros t Hs; [cbn; lia|].
  inversion Hs as [|? ? Hs' Hhd]; subst. inversion Hhd; subst.
  change (last (z :: r) t) with (last (z :: r) t). rewrite last_cons_default.
  specialize (IH z Hs'). lia.
Qed.

Lemma timer_run_order : forall stamps p cr,
  0 <= cr < 1000 -> Sorted Z.le (p :: stamps) ->
  StronglySorted Z.lt (snd (timer_run (mkClock (Some p) cr) stamps)) /\
  Forall (fun x => p + 1000 <= x < last stamps p + 1000) (snd (timer_run (mkClock (Some p) cr) stamps)).
Proof.
  induction stamps as [|t rest IH]; intros p cr Hcr Hs; cbn [timer_run]; [split; constructor|].
  rewrite (dispatchTick_clock_spec (mkClock (Some p) cr) t p eq_refl). cbn [tickCarryover].
  set (d := t - p + cr).
  inversion Hs as [|? ? Hs' Hhd]; subst. inversion Hhd; subst.
  assert (Hd : 0 <= d) by (unfold d; lia).
  assert (Hm : 0 <= d mod 1000 < 1000) by (apply Z.mod_pos_bound; lia).
  destruct (IH t (d mod 1000) Hm Hs') as [S2 B2].
  assert (Lt := sorted_le_last t rest Hs').
  destruct (timer_run (mkClock (Some t) (d mod 1000)) rest) as [c2 i2]. cbn [snd] in *.
  assert (Hq : 1000 * (d / 1000) <= d) by (apply Z.mul_div_le; lia).
  assert (B1 : Forall (fun x => p + 1000 <= x <= t + cr)
                 (map (fun i => p + Z.of_nat i * 1000) (seq 1 (Z.to_nat (d / 1000))))).
  { rewrite Forall_forall. intros y Hy. apply in_map_iff in Hy as (i & <- & Hi).
    apply in_seq in Hi. unfold d in *. lia. }
  rewrite last_cons_default. split.
  - apply StronglySorted_app_lt; [apply tick_times_sorted|exact S2|].
    intros x y Hx Hy. rewrite Forall_forall in B1, B2.
    specialize (B1 x Hx). specialize (B2 y Hy). lia.
  - rewrite Forall_app. split.
    + eapply Forall_impl; [|exact B1]. intros x Hx. cbv beta in Hx. lia.
    + eapply Forall_impl; [|exact B2]. intros x Hx. cbv beta in Hx. lia.
Qed.

(** With timestamps that never go back, the tick instants the timer
    dispatches strictly increase across all callbacks, start at least one
    second after the first timestamp, and stay below the last timestamp
    plus one second. *)
Theorem timer_run_ticks_increasing (c0 : TickClock) (t0 : Z) (rest : list Z) :
  lastTickTimestamp c0 = None -> Sorted Z.le (t0 :: rest) ->
  StronglySorted Z.lt (snd (timer_run c0 (t0 :: rest))) /\
  Forall (fun x => t0 + 1000 <= x < last (t0 :: rest) t0 + 1000) (snd (timer_run c0 (t0 :: rest))).
Proof.
  intros H0 Hs. cbn [timer_run]. unfold dispatchTick_clock. rewrite H0. fold (dispatchTick_clock).
  inversion Hs as [|? ? Hs' _]; subst.
  assert (Hs0 : Sorted Z.le (t0 :: rest)) by exact Hs.
  destruct (timer_run_order rest t0 0 ltac:(lia) Hs0) as [S B].
  rewrite last_cons_default.
  destruct (timer_run (mkClock (Some t0) 0) rest) as [c' ins]. cbn [snd app] in *. split; assumption.
Qed.

Lemma timer_run_no_lost_second_witness :
  (last [0; 1500; 900; 4200] 0 - 0) / 1000
  <= Z.of_nat (List.length (snd (timer_run (mkClock None 0) [0; 1500; 900; 4200]))).
Proof. apply (timer_run_no_lost_second (mkClock None 0) 0 [1500; 900; 4200]). reflexivity. Defined.

Lemma timer_run_exact_witness :
  let '(c', ins) := timer_run (mkClock None 0) [0; 1500; 2600; 4000] in
  Z.of_nat (List.length ins) = (last [0; 1500; 2600; 4000] 0 - 0) / 1000 /\
  tickCarryover c' = (last [0; 1500; 2600; 4000] 0 - 0) mod 1000.
Proof.
  apply (timer_run_exact (mkClock None 0) 0 [1500; 2600; 4000]);
    [reflexivity | repeat constructor; cbn; lia].
Defined.

Lemma timer_run_ticks_increasing_witness :
  StronglySorted Z.lt (snd (timer_run (mkClock None 0) [0; 1500; 2600; 4000])) /\
  Forall (fun x => 0 + 1000 <= x < last [0; 1500; 2600; 4000] 0 + 1000)
    (snd (timer_run (mkClock None 0) [0; 1500; 2600; 4000])).
Proof.
  apply (timer_run_ticks_increasing (mkClock None 0) 0 [1500; 2600; 4000]);
    [reflexivity | repeat constructor; cbn; lia].
Defined.

(** ** The reducer and its callers: further properties *)

Lemma reachable_normalized s : reachable s -> Forall normalized (tasks s).
Proof.
  intros R. rewrite <- (reachable_fixed s R).
  apply realign_go_normalized, map_ensureTaskDefaults_normalized.
Qed.

Lemma tick_task_blocked n a :
  (is_paused a = true \/ match remainingSeconds a with Some r => r <= 0 | None => True end) ->
  tick_task n a = a.
Proof.
  intros [P|B]; [|apply (tick_task_stuck n a pending B)].
  unfold tick_task. destruct (remainingSeconds a) as [r|]; [|reflexivity].
  destruct (r <=? 0); [reflexivity|]. rewrite P. reflexivity.
Qed.

(** A tick leaves a reachable state alone when its active task is paused or
    has no time left. *)
Lemma tick_blocked_fixed s i a :
  reachable s -> findActiveTaskIndex (tasks s) = Some i -> nth_error (tasks s) i = Some a ->
  (is_paused a = true \/ match remainingSeconds a with Some r => r <= 0 | None => True end) ->
  forall n, reduce_tick s n = s.
Proof.
  intros R F Nth B n.
  pose proof (tick_task_blocked n a B) as T.
  destruct (findIndex_split _ _ _ F) as (pre & a' & post & E & L & _ & Ha).
  subst i. rewrite E, nth_error_at in Nth. injection Nth as <-.
  apply negb_true_iff in Ha.
  unfold reduce_tick. rewrite F, E, map_index_at, T.
  assert (Bf : becameStruck (pre ++ a' :: post) (pre ++ a' :: post) (List.length pre) = false).
  { unfold becameStruck. rewrite nth_error_at, Ha.
    destruct (remainingSeconds a'); [apply andb_false_r|reflexivity]. }
  rewrite Bf, <- E, (reachable_fixed s R). destruct s; reflexivity.
Qed.

Lemma findActiveTaskIndex_pause_map k p now ts :
  findActiveTaskIndex (map (pause_map k p now) ts) = findActiveTaskIndex ts.
Proof.
  destruct (pause_map_facts k p now) as (Gt & _).
  unfold findActiveTaskIndex. induction ts as [|t r IH]; [reflexivity|].
  cbn [map findIndex]. rewrite Gt, IH. reflexivity.
Qed.

Lemma is_struck_ensureTaskDefaults t : is_struck (ensureTaskDefaults t) = is_struck t.
Proof. destruct t as [? ? ? ? ? ? ? [[| | |]|] ? ?]; reflexivity. Qed.

Lemma count_struck_ensureAligned ts : count_struck (ensureAlignedTasks ts) = count_struck ts.
Proof.
  unfold ensureAlignedTasks, realignTaskStatuses. rewrite realign_go_count_struck.
  induction ts as [|t r IH]; [reflexivity|]. unfold count_struck in *. cbn [map filter].
  rewrite is_struck_ensureTaskDefaults. destruct (is_struck t); cbn [List.length]; lia.
Qed.

(** [becameStruck] on the active task is the strike branch of [tick_task]. *)
Lemma tick_task_struck_iff n a :
  is_terminal a = false ->
  match remainingSeconds a with Some r => (0 <? r) && is_terminal (tick_task n a) | None => false end
  = is_struck (tick_task n a).
Proof.
  intros Ha. pose proof (count_struck_non_terminal a Ha) as Sa.
  unfold tick_task. destruct (remainingSeconds a) as [r|] eqn:R; [|symmetry; exact Sa].
  destruct (r <=? 0) eqn:Hr.
  - rewrite Ha, Sa. apply andb_false_r.
  - destruct (is_paused a); [rewrite Ha, Sa; apply andb_false_r|].
    assert (P : (0 <? r) = true) by (apply Z.ltb_lt; apply Z.leb_gt in Hr; lia).
    destruct (0 <? r - 1); rewrite P; reflexivity.
Qed.

Lemma reduce_tick_score_struck s n :
  let s' := reduce_tick s n in
  score s' - score s = Z.of_nat (count_struck (tasks s')) - Z.of_nat (count_struck (tasks s)) /\
  totalCompleted (stats s') - totalCompleted (stats s) = score s' - score s.
Proof.
  cbv zeta. unfold reduce_tick. destruct (findActiveTaskIndex (tasks s)) as [i|] eqn:F; [|lia].
  destruct (findIndex_split _ _ _ F) as (pre & a & post & E & <- & _ & Ha).
  apply negb_true_iff in Ha.
  rewrite E, map_index_at.
  assert (Bs : becameStruck (pre ++ a :: post) (pre ++ tick_task n a :: post) (List.length pre)
               = is_struck (tick_task n a)).
  { unfold becameStruck. rewrite !nth_error_at. apply tick_task_struck_iff, Ha. }
  rewrite Bs. pose proof (count_struck_non_terminal a Ha) as Sa.
  destruct (is_struck (tick_task n a)) eqn:St; cbn [tasks score stats with_tasks];
    rewrite count_struck_ensureAligned, !count_struck_mid, Sa, ?St;
    [unfold updateStatsOnCompletion; cbn [totalCompleted]|]; split; lia.
Qed.

Lemma tick_many_score_struck s ins :
  let s' := tick_many s ins in
  score s' - score s = Z.of_nat (count_struck (tasks s')) - Z.of_nat (count_struck (tasks s)) /\
  totalCompleted (stats s') - totalCompleted (stats s) = score s' - score s.
Proof.
  revert s; induction ins as [|n r IH]; intros s; cbv zeta; [cbn [tick_many]; split; lia|].
  cbn [tick_many reducer]. destruct (IH (reduce_tick s n)) as [A B].
  destruct (reduce_tick_score_struck s n) as [C D]. cbv zeta in *. split; lia.
Qed.

(** [dispatchTick] only ever changes the store by [tick] actions. *)
Lemma dispatchTick_state st nowMs :
  fst (dispatchTick st nowMs) = tick_many (fst st) (snd (dispatchTick_clock (snd st) nowMs)).
Proof. unfold dispatchTick. destruct (dispatchTick_clock (snd st) nowMs); reflexivity. Qed.

(** While the active task of a reachable state is paused, or has no
    countdown left, a timer callback leaves the state unchanged, however much
    time has passed. *)
Theorem dispatchTick_blocked_active (s : AppState) (c : TickClock) (nowMs : Z) (i : nat) (a : Task) :
  reachable s -> findActiveTaskIndex (tasks s) = Some i -> nth_error (tasks s) i = Some a ->
  (is_paused a = true \/ match remainingSeconds a with Some r => r <= 0 | None => True end) ->
  fst (dispatchTick (s, c) nowMs) = s.
Proof.
  intros R F Nth B. rewrite dispatchTick_state. cbn [fst snd].
  apply tick_many_fixed. exact (tick_blocked_fixed s i a R F Nth B).
Qed.

(** Pausing the active task freezes the store: no timer callback after the
    [pauseTask] action changes the state. *)
Theorem pauseTask_active_freezes (s : AppState) (i : nat) (a : Task) (now : Instant)
    (c : TickClock) (nowMs : Z) :
  reachable s -> findActiveTaskIndex (tasks s) = Some i -> nth_error (tasks s) i = Some a ->
  let s' := reducer s (pauseTask (id a) now) in
  fst (dispatchTick (s', c) nowMs) = s'.
Proof.
  intros R F Nth s'. rewrite dispatchTick_state. cbn [fst snd].
  apply tick_many_fixed.
  assert (Ts : tasks s' = map (pause_map (id a) true now) (tasks s)) by reflexivity.
  apply (tick_blocked_fixed s' i (with_paused a true now)).
  - apply reach_step, R.
  - rewrite Ts, findActiveTaskIndex_pause_map. exact F.
  - rewrite Ts, nth_error_map, Nth. cbn [option_map]. unfold pause_map.
    rewrite String.eqb_refl. reflexivity.
  - left. reflexivity.
Qed.

(** The timer never awards a point without striking a task: over one timer
    callback the score grows by the number of tasks newly struck, and
    [totalCompleted] by the same amount. *)
Theorem dispatchTick_score_struck (s : AppState) (c : TickClock) (nowMs : Z) :
  let s' := fst (dispatchTick (s, c) nowMs) in
  score s' - score s = Z.of_nat (count_struck (tasks s')) - Z.of_nat (count_struck (tasks s)) /\
  totalCompleted (stats s') - totalCompleted (stats s) = score s' - score s.
Proof. cbv zeta. rewrite dispatchTick_state. apply tick_many_score_struck. Qed.

(** The queue of a reachable state, split at its first live task. *)
Lemma reachable_split s pre a post :
  reachable s -> tasks s = pre ++ a :: post -> terminal_all pre -> is_terminal a = false ->
  Forall normalized pre /\ normalized a /\ Forall normalized post /\
  findActiveTaskIndex (tasks s) = Some (List.length pre).
Proof.
  intros R E Hpre Ha. pose proof (reachable_normalized s R) as N. rewrite E in N.
  apply Forall_app in N as [Np N]. inversion N as [|? ? Na Npost]; subst.
  refine (conj Np (conj Na (conj Npost _))).
  rewrite E. apply findIndex_at; [exact Hpre|]. rewrite Ha. reflexivity.
Qed.

Lemma ensureAligned_terminal_prefix pre c post :
  Forall normalized pre -> normalized c -> Forall normalized post ->
  terminal_all pre -> is_terminal c = true ->
  ensureAlignedTasks (pre ++ c :: post) = pre ++ c :: realignTaskStatuses post.
Proof.
  intros Np Nc Npost Hpre Hc.
  unfold ensureAlignedTasks, realignTaskStatuses.
  rewrite map_ensureTaskDefaults_id by (apply Forall_app; split; [exact Np|constructor; assumption]).
  rewrite realign_go_terminal_prefix by exact Hpre. cbn [realign_go]. rewrite Hc. reflexivity.
Qed.

(** [manualComplete] on a reachable state: the first live task is marked
    [completed] with no time left and a [manual_complete] history entry
    recording what was left, the queue behind it is realigned (the next live
    task with time becomes [in_progress]), the score grows by 2 and the
    statistics count one completion. *)
Theorem manualComplete_active (s : AppState) (pre : list Task) (a : Task) (post : list Task)
    (now : Instant) :
  reachable s -> tasks s = pre ++ a :: post -> terminal_all pre -> is_terminal a = false ->
  let s' := reducer s (manualComplete now) in
  tasks s' = pre ++ mkTask (id a) (title a) (createdAt a) now (Some now)
                      (timeAssignedSeconds a) (Some 0) (Some completed) (isPaused a)
                      (history a ++ [mkEntry manual_complete (Some (dflt 0 (remainingSeconds a))) now])
                 :: realignTaskStatuses post /\
  score s' = score s + 2 /\
  stats s' = updateStatsOnCompletion s now /\
  lastSavedAt (meta s') = now.
Proof.
  intros R E Hpre Ha s'.
  destruct (reachable_split s pre a post R E Hpre Ha) as (Np & Na & Npost & F).
  unfold s'. cbn [reducer]. unfold reduce_manualComplete. rewrite F, E.
  pose proof (map_index_at (fun task => mkTask (id task) (title task) (createdAt task) now (Some now)
                      (timeAssignedSeconds task) (Some 0) (Some completed) (isPaused task)
                      (history task ++ [mkEntry manual_complete
                                          (Some (dflt 0 (remainingSeconds task))) now]))
                      pre a post) as M.
  cbv beta in M. rewrite M. cbn [tasks score stats meta lastSavedAt].
  rewrite ensureAligned_terminal_prefix by (try assumption; try reflexivity; split; cbn; discriminate).
  repeat split.
Qed.

(** [addTask] on a reachable state appends the new task at the end and
    leaves every other task as it was; the new task starts [in_progress]
    only when no other task is live and it has a positive budget. *)
Theorem addTask_appends (s : AppState) (newId title' : string) (seconds : option Z) (now : Instant) :
  reachable s ->
  let s' := reducer s (addTask newId title' seconds now) in
  tasks s' = tasks s ++ [with_status (new_task newId title' seconds now)
                           (if negb (has_live (tasks s)) && (0 <? dflt 0 seconds)
                            then in_progress else pending)] /\
  score s' = score s /\ stats s' = stats s /\ lastSavedAt (meta s') = now.
Proof.
  intros R s'. pose proof (reachable_normalized s R) as N.
  assert (Nn : normalized (new_task newId title' seconds now))
    by (split; cbn; [discriminate|intros H; exact H]).
  unfold s'. cbn [reducer with_tasks_saved tasks score stats meta lastSavedAt].
  unfold ensureAlignedTasks, realignTaskStatuses.
  rewrite map_ensureTaskDefaults_id by (apply Forall_app; split; [exact N|constructor; [exact Nn|constructor]]).
  rewrite realign_go_app. cbn [orb].
  pose proof (reachable_fixed s R) as Fx.
  unfold ensureAlignedTasks, realignTaskStatuses in Fx.
  rewrite map_ensureTaskDefaults_id in Fx by exact N.
  rewrite Fx. cbn [realign_go]. 
  assert (T : is_terminal (new_task newId title' seconds now) = false) by reflexivity.
  rewrite T. repeat split.
  destruct (has_live (tasks s)); [reflexivity|]. cbn [negb andb].
  unfold effective_remaining. cbn [new_task remainingSeconds timeAssignedSeconds].
  destruct seconds; reflexivity.
Qed.

Lemma map_id_realign_go h ts : map id (realign_go h ts) = map id ts.
Proof.
  revert h; induction ts as [|t r IH]; intros h; cbn [realign_go]; [reflexivity|].
  destruct (is_terminal t); [|destruct h]; cbn [map id with_status]; rewrite IH; reflexivity.
Qed.

Lemma map_id_ensureAligned ts : map id (ensureAlignedTasks ts) = map id ts.
Proof.
  unfold ensureAlignedTasks, realignTaskStatuses. rewrite map_id_realign_go, map_map.
  apply map_ext. intros; reflexivity.
Qed.

Lemma map_id_filter (p : string -> bool) ts :
  map id (filter (fun t => p (id t)) ts) = filter p (map id ts).
Proof.
  induction ts as [|t r IH]; [reflexivity|]. cbn [filter map].
  destruct (p (id t)); cbn [map]; rewrite IH; reflexivity.
Qed.

Lemma filter_filter_and {A} (p q : A -> bool) l :
  filter p (filter q l) = filter (fun x => q x && p x) l.
Proof.
  induction l as [|x r IH]; [reflexivity|]. cbn [filter].
  destruct (q x); cbn [andb filter]; [destruct (p x)|]; rewrite ?IH; reflexivity.
Qed.

(** [deleteTasks] removes exactly the tasks whose id is listed, keeps the
    order of the others, and leaves the score and the statistics alone. *)
Theorem deleteTasks_removes (s : AppState) (taskIds : list string) (now : Instant) :
  let s' := deleteTasks s taskIds now in
  map id (tasks s') = filter (fun x => negb (existsb (String.eqb x) taskIds)) (map id (tasks s)) /\
  score s' = score s /\ stats s' = stats s.
Proof.
  unfold deleteTasks. revert s; induction taskIds as [|k ks IH]; intros s.
  - cbn [fold_left existsb negb]. rewrite filter_true. repeat split.
  - cbn [fold_left]. destruct (IH (reducer s (deleteTask k now))) as (I & Sc & St).
    rewrite I, Sc, St. cbn [reducer with_tasks_saved tasks score stats].
    rewrite map_id_ensureAligned, (map_id_filter (fun x => negb (String.eqb x k))),
      filter_filter_and.
    repeat split. apply filter_ext. intros x. cbn [existsb]. rewrite negb_orb. reflexivity.
Qed.

(** Deleting the active task of a reachable state (with distinct ids) keeps
    the finished tasks before it and realigns the queue behind it: the next
    live task with time becomes [in_progress]. *)
Theorem deleteTask_active (s : AppState) (pre : list Task) (a : Task) (post : list Task)
    (now : Instant) :
  reachable s -> NoDup (map id (tasks s)) ->
  tasks s = pre ++ a :: post -> terminal_all pre -> is_terminal a = false ->
  tasks (reducer s (deleteTask (id a) now)) = pre ++ realignTaskStatuses post.
Proof.
  intros R Nd E Hpre Ha.
  destruct (reachable_split s pre a post R E Hpre Ha) as (Np & _ & Npost & _).
  rewrite E, map_app in Nd. cbn [map] in Nd. apply NoDup_remove_2 in Nd.
  rewrite <- map_app in Nd.
  cbn [reducer with_tasks_saved tasks]. rewrite E, filter_app. cbn [filter].
  rewrite String.eqb_refl. cbn [negb].
  assert (Hn := not_in_ids (id a) (pre ++ post) Nd).
  rewrite !filter_no_match by (intros t Ht; apply Hn, in_or_app; auto).
  unfold ensureAlignedTasks, realignTaskStatuses.
  rewrite map_ensureTaskDefaults_id by (apply Forall_app; split; assumption).
  apply realign_go_terminal_prefix, Hpre.
Qed.

(** *** [reorderTasks] *)

Lemma map_get_fold ts k acc t :
  fold_left (fun acc t => if String.eqb (id t) k then Some t else acc) ts acc = Some t ->
  acc = Some t \/ (id t = k /\ In t ts).
Proof.
  revert acc; induction ts as [|x r IH]; intros acc H; cbn [fold_left] in H; [left; exact H|].
  destruct (IH _ H) as [E|(Ei & Hi)]; [|right; split; [exact Ei|right; exact Hi]].
  destruct (String.eqb_spec (id x) k) as [Ex|_]; [|left; exact E].
  injection E as <-. right. split; [exact Ex|left; reflexivity].
Qed.

Lemma map_get_some ts k t : map_get ts k = Some t -> id t = k /\ In t ts.
Proof. intros H. destruct (map_get_fold ts k None t H) as [E|E]; [discriminate|exact E]. Qed.

Lemma map_get_fold_some ts k x :
  exists t, fold_left (fun acc t => if String.eqb (id t) k then Some t else acc) ts (Some x) = Some t.
Proof.
  revert x; induction ts as [|y r IH]; intros x; cbn [fold_left]; [eauto|].
  destruct (String.eqb (id y) k); apply IH.
Qed.

Lemma map_get_in ts k : In k (map id ts) -> exists t, map_get ts k = Some t.
Proof.
  unfold map_get. generalize (@None Task) as acc.
  induction ts as [|y r IH]; intros acc H; [destruct H|]. cbn [fold_left].
  destruct (String.eqb_spec (id y) k) as [E|E]; [apply map_get_fold_some|].
  apply IH. destruct H as [H|H]; [contradiction|exact H].
Qed.

Lemma existsb_eqb_in k l : existsb (String.eqb k) l = true <-> In k l.
Proof.
  rewrite existsb_exists. split.
  - intros (x & Hx & E). apply String.eqb_eq in E. subst. exact Hx.
  - intros H. exists k. split; [exact H|apply String.eqb_refl].
Qed.

Lemma reorder_collect_spec ts ids : forall seen acc,
  map id acc = seen -> NoDup seen -> incl acc ts ->
  let '(acc', seen') := reorder_collect ts ids seen acc in
  map id acc' = seen' /\ NoDup seen' /\ incl acc' ts.
Proof.
  induction ids as [|k rest IH]; intros seen acc Ha Nd Hi; cbn [reorder_collect]; [auto|].
  destruct (map_get ts k) as [t|] eqn:G; [|apply IH; assumption].
  destruct (existsb (String.eqb k) seen) eqn:X; [apply IH; assumption|].
  destruct (map_get_some ts k t G) as [It Int].
  apply IH.
  - rewrite map_app, Ha. cbn [map]. rewrite It. reflexivity.
  - apply (Permutation_NoDup (Permutation_cons_append seen k)). constructor; [|exact Nd].
    intros Hk. apply existsb_eqb_in in Hk. congruence.
  - intros x Hx. apply in_app_or in Hx as [Hx|[<-|[]]]; [apply Hi, Hx|exact Int].
Qed.

Lemma reorder_collect_all ts ids : forall seen acc,
  NoDup ids -> (forall k, In k ids -> In k (map id ts)) -> (forall k, In k ids -> ~ In k seen) ->
  snd (reorder_collect ts ids seen acc) = seen ++ ids.
Proof.
  induction ids as [|k rest IH]; intros seen acc Nd Hin Hs; cbn [reorder_collect].
  - rewrite app_nil_r. reflexivity.
  - inversion Nd as [|? ? Nk Nd']; subst.
    destruct (map_get_in ts k (Hin k (or_introl eq_refl))) as [t G]. rewrite G.
    assert (X : existsb (String.eqb k) seen = false).
    { destruct (existsb (String.eqb k) seen) eqn:X; [|reflexivity].
      apply existsb_eqb_in in X. exfalso. exact (Hs k (or_introl eq_refl) X). }
    rewrite X, IH, <- app_assoc; [reflexivity|exact Nd'|intros; apply Hin; right; assumption|].
    intros k' Hk' Hk''. apply in_app_or in Hk'' as [H|[<-|[]]]; [|contradiction].
    exact (Hs k' (or_intror Hk') H).
Qed.

(** The tasks [reorderTasks] puts in front and the ids they carry. *)
Lemma reduce_reorder_shape s order now :
  order <> [] ->
  exists acc seen,
    tasks (reducer s (reorderTasks order now))
    = ensureAlignedTasks (acc ++ filter (fun t => negb (existsb (String.eqb (id t)) seen)) (tasks s)) /\
    reorder_collect (tasks s) order [] [] = (acc, seen) /\
    map id acc = seen /\ NoDup seen /\ incl acc (tasks s).
Proof.
  intros Ho. cbn [reducer]. unfold reduce_reorder.
  destruct order as [|k ks]; [contradiction|].
  pose proof (reorder_collect_spec (tasks s) (k :: ks) [] [] eq_refl (NoDup_nil _)
                (incl_nil_l _)) as Sp.
  destruct (reorder_collect (tasks s) (k :: ks) [] []) as [acc seen].
  exists acc, seen. destruct Sp as (A & B & C). repeat split; assumption.
Qed.

(** With distinct ids, [reorderTasks] never loses nor duplicates a task,
    whatever order it is given (unknown or repeated ids included). *)
Theorem reorderTasks_permutation (s : AppState) (order : list string) (now : Instant) :
  NoDup (map id (tasks s)) ->
  Permutation (map id (tasks (reducer s (reorderTasks order now)))) (map id (tasks s)).
Proof.
  intros Nd. destruct order as [|k ks]; [reflexivity|].
  destruct (reduce_reorder_shape s (k :: ks) now ltac:(discriminate))
    as (acc & seen & -> & _ & Ha & Ns & Hi).
  rewrite map_id_ensureAligned, map_app, Ha,
    (map_id_filter (fun x => negb (existsb (String.eqb x) seen))).
  apply NoDup_Permutation.
  - apply NoDup_app; [exact Ns|apply NoDup_filter, Nd|].
    intros x Hx Hf. apply filter_In in Hf as [_ Hf].
    apply negb_true_iff in Hf. apply existsb_eqb_in in Hx. congruence.
  - exact Nd.
  - intros x. rewrite in_app_iff, filter_In. split.
    + intros [Hx|[Hx _]]; [|exact Hx]. rewrite <- Ha in Hx.
      apply in_map_iff in Hx as (t & <- & Ht). apply in_map, Hi, Ht.
    + intros Hx. destruct (existsb (String.eqb x) seen) eqn:X.
      * left. apply existsb_eqb_in, X.
      * right. split; [exact Hx|reflexivity].
Qed.

Lemma reduce_reorder_perm_tasks s order now :
  NoDup (map id (tasks s)) -> Permutation order (map id (tasks s)) ->
  exists L, tasks (reducer s (reorderTasks order now)) = ensureAlignedTasks L /\
    map id L = order /\ incl L (tasks s).
Proof.
  intros Nd P. destruct order as [|k ks].
  - apply Permutation_nil in P. exists (tasks s). cbn [reducer reduce_reorder].
    destruct (tasks s) as [|t r]; [|discriminate]. repeat split. intros x [].
  - destruct (reduce_reorder_shape s (k :: ks) now ltac:(discriminate))
      as (acc & seen & -> & RC & Ha & Ns & Hi).
    assert (Se : seen = k :: ks).
    { pose proof (reorder_collect_all (tasks s) (k :: ks) [] []) as C. rewrite RC in C.
      apply C.
      - apply (Permutation_NoDup (Permutation_sym P) Nd).
      - intros x Hx. apply (Permutation_in _ P Hx).
      - intros x _ []. }
    exists acc.
    rewrite (filter_ext_in _ (fun _ => false)), filter_false, app_nil_r;
      [split; [reflexivity|split; [congruence|exact Hi]]|].
    intros t Ht. apply negb_false_iff, existsb_eqb_in. rewrite Se.
    apply (Permutation_in _ (Permutation_sym P)), in_map, Ht.
Qed.

(** Given a permutation of the task ids (all distinct), [reorderTasks]
    puts the tasks in exactly that order. *)
Theorem reorderTasks_exact (s : AppState) (order : list string) (now : Instant) :
  NoDup (map id (tasks s)) -> Permutation order (map id (tasks s)) ->
  map id (tasks (reducer s (reorderTasks order now))) = order.
Proof.
  intros Nd P. destruct (reduce_reorder_perm_tasks s order now Nd P) as (L & -> & Hl & _).
  rewrite map_id_ensureAligned. exact Hl.
Qed.

(** *** [handleMakeActive] *)

Section SpliceFacts.
Context {A : Type}.

Lemma firstn_skipn_mid (l1 : list A) x l2 :
  firstn (List.length l1) (l1 ++ x :: l2) = l1 /\
  firstn (S (List.length l1)) (l1 ++ x :: l2) = l1 ++ [x] /\
  skipn (List.length l1) (l1 ++ x :: l2) = x :: l2 /\
  skipn (S (List.length l1)) (l1 ++ x :: l2) = l2.
Proof.
  induction l1 as [|y r IH]; [cbn; auto|].
  destruct IH as (A1 & A2 & A3 & A4).
  change (List.length (y :: r)) with (S (List.length r)).
  change ((y :: r) ++ x :: l2) with (y :: (r ++ x :: l2)).
  change ((y :: r) ++ [x]) with (y :: (r ++ [x])).
  rewrite !firstn_cons, !skipn_cons, A1, A2, A3, A4. auto.
Qed.

Lemma filter_keep (p : A -> bool) l : (forall y, In y l -> p y = true) -> filter p l = l.
Proof.
  induction l as [|y r IH]; intros H; cbn [filter]; [reflexivity|].
  rewrite H by (left; reflexivity). f_equal. apply IH. intros; apply H; right; assumption.
Qed.

End SpliceFacts.

Lemma splice_start_in (len : Z) (j : nat) : Z.of_nat j <= len -> splice_start len (Z.of_nat j) = j.
Proof.
  intros H. unfold splice_start.
  replace (Z.of_nat j <? 0) with false by (symmetry; apply Z.ltb_ge; lia).
  rewrite Z.min_l by exact H. apply Nat2Z.id.
Qed.

(** [taskIds.splice(taskIds.indexOf(x), 1)] on distinct ids containing [x]
    removes [x] and nothing else. *)
Lemma splice_remove1_indexOf l x :
  NoDup l -> In x l -> splice_remove1 l (indexOf l x) = filter (fun y => negb (String.eqb y x)) l.
Proof.
  intros Nd Hx. unfold indexOf, findIndexZ.
  destruct (findIndex (fun y => String.eqb y x) l) as [j|] eqn:F.
  - destruct (findIndex_split _ _ _ F) as (l1 & y & l2 & -> & <- & H1 & Hy).
    apply String.eqb_eq in Hy. subst y.
    unfold splice_remove1. rewrite splice_start_in by (rewrite length_app; cbn; lia).
    destruct (firstn_skipn_mid l1 x l2) as (-> & _ & _ & ->).
    apply NoDup_remove_2 in Nd.
    rewrite filter_app. cbn [filter]. rewrite String.eqb_refl. cbn [negb].
    rewrite !filter_keep; [reflexivity| |].
    + intros y Hy. apply negb_true_iff, String.eqb_neq. intros <-. apply Nd, in_or_app. auto.
    + intros y Hy. rewrite Forall_forall in H1. rewrite H1 by exact Hy. reflexivity.
  - apply findIndex_none in F. rewrite Forall_forall in F. specialize (F x Hx).
    rewrite String.eqb_refl in F. discriminate.
Qed.

Lemma filter_neq_map_id (k : string) ts :
  map id (filter (fun t => negb (String.eqb (id t) k)) ts)
  = filter (fun x => negb (String.eqb x k)) (map id ts).
Proof. apply (map_id_filter (fun x => negb (String.eqb x k))). Qed.

(** The id order of [handleMakeActive] for a task [t] other than the active
    task [a] (distinct ids): [t] moves right behind [a]. *)
Lemma handleMakeActive_order_split ts pre a post t :
  NoDup (map id ts) -> ts = pre ++ a :: post -> terminal_all pre -> is_terminal a = false ->
  In t ts -> id t <> id a ->
  handleMakeActive_order ts t
  = filter (fun x => negb (String.eqb x (id t))) (map id pre) ++ id a :: id t ::
    filter (fun x => negb (String.eqb x (id t))) (map id post).
Proof.
  intros Nd E Hpre Ha Ht Hta. unfold handleMakeActive_order.
  rewrite E, findIndex_at by (try exact Hpre; rewrite Ha; reflexivity).
  rewrite <- E. rewrite splice_remove1_indexOf by (try exact Nd; apply in_map, Ht).
  assert (Na : nth (List.length pre) (map id ts) EmptyString = id a).
  { rewrite E, map_app. cbn [map]. rewrite <- (length_map id pre). apply nth_middle. }
  rewrite Na, E, map_app. cbn [map]. rewrite filter_app. cbn [filter].
  replace (String.eqb (id a) (id t)) with false by (symmetry; apply String.eqb_neq; congruence).
  cbn [negb].
  set (fpre := filter (fun x => negb (String.eqb x (id t))) (map id pre)).
  set (fpost := filter (fun x => negb (String.eqb x (id t))) (map id post)).
  assert (Nin : ~ In (id a) fpre).
  { intros H. unfold fpre in H. apply filter_In in H as [H _].
    rewrite E, map_app in Nd. cbn [map] in Nd. apply NoDup_remove_2 in Nd.
    apply Nd, in_or_app. left. exact H. }
  unfold findIndexZ. rewrite findIndex_at.
  2:{ rewrite Forall_forall. intros y Hy. apply String.eqb_neq. intros Ey. subst y. contradiction. }
  2:{ apply String.eqb_refl. }
  unfold splice_insert. rewrite length_app. cbn [List.length].
  replace (Z.of_nat (List.length fpre) + 1) with (Z.of_nat (S (List.length fpre))) by lia.
  rewrite splice_start_in by lia.
  destruct (firstn_skipn_mid fpre (id a) fpost) as (_ & -> & _ & ->).
  rewrite <- app_assoc. reflexivity.
Qed.

Lemma id_inj_in ts x y : NoDup (map id ts) -> In x ts -> In y ts -> id x = id y -> x = y.
Proof.
  induction ts as [|t r IH]; intros Nd Hx Hy E; [destruct Hx|].
  inversion Nd as [|? ? Nt Nr]; subst.
  destruct Hx as [<-|Hx], Hy as [<-|Hy]; auto.
  - exfalso. apply Nt. rewrite E. apply in_map, Hy.
  - exfalso. apply Nt. rewrite <- E. apply in_map, Hx.
Qed.

Lemma ids_determine ts L1 L2 :
  NoDup (map id ts) -> incl L1 ts -> incl L2 ts -> map id L1 = map id L2 -> L1 = L2.
Proof.
  intros Nd. revert L2; induction L1 as [|x r IH]; intros [|y r2] H1 H2 E; try discriminate;
    [reflexivity|].
  injection E as Ex Er. f_equal.
  - apply (id_inj_in ts); [exact Nd|apply H1; left; reflexivity|apply H2; left; reflexivity|exact Ex].
  - apply IH; [intros z Hz; apply H1; right; exact Hz|intros z Hz; apply H2; right; exact Hz|exact Er].
Qed.

Lemma Permutation_pick (l : list string) x :
  NoDup l -> In x l -> Permutation l (x :: filter (fun y => negb (String.eqb y x)) l).
Proof.
  intros Nd Hx. apply in_split in Hx as (l1 & l2 & ->).
  apply NoDup_remove_2 in Nd.
  rewrite filter_app. cbn [filter]. rewrite String.eqb_refl. cbn [negb].
  rewrite !filter_keep; [apply Permutation_sym, Permutation_middle| |];
    intros y Hy; apply negb_true_iff, String.eqb_neq; intros <-; apply Nd, in_or_app; auto.
Qed.

(** [handleMakeActive t] on a reachable state with distinct ids, for a task
    [t] other than the active task [a]: [a] stays the active task, [t] comes
    right behind it, and the finished tasks before [a] keep their order. *)
Theorem handleMakeActive_next (s : AppState) (pre : list Task) (a : Task) (post : list Task)
    (t : Task) (now : Instant) :
  reachable s -> NoDup (map id (tasks s)) ->
  tasks s = pre ++ a :: post -> terminal_all pre -> is_terminal a = false ->
  In t (tasks s) -> id t <> id a ->
  let s' := handleMakeActive s t now in
  let pre' := filter (fun x => negb (String.eqb (id x) (id t))) pre in
  exists t' post',
    tasks s' = pre' ++ a :: t' :: post' /\ id t' = id t /\
    map id post' = filter (fun x => negb (String.eqb x (id t))) (map id post) /\
    findActiveTaskIndex (tasks s') = Some (List.length pre').
Proof.
  intros R Nd E Hpre Ha Ht Hta s' pre'.
  destruct (reachable_split s pre a post R E Hpre Ha) as (Np & Na & Npost & _).
  set (post0 := filter (fun x => negb (String.eqb (id x) (id t))) post).
  set (O := handleMakeActive_order (tasks s) t).
  assert (HO : O = map id (pre' ++ a :: t :: post0)).
  { unfold O. rewrite (handleMakeActive_order_split (tasks s) pre a post t Nd E Hpre Ha Ht Hta).
    rewrite map_app. cbn [map]. unfold pre', post0. rewrite !filter_neq_map_id. reflexivity. }
  assert (Inc : incl (pre' ++ a :: t :: post0) (tasks s)).
  { intros x Hx. rewrite E. apply in_app_or in Hx as [Hx|[<-|[<-|Hx]]].
    - apply filter_In in Hx as [Hx _]. apply in_or_app. left. exact Hx.
    - apply in_or_app. right. left. reflexivity.
    - rewrite <- E. exact Ht.
    - apply filter_In in Hx as [Hx _]. apply in_or_app. right. right. exact Hx. }
  assert (P : Permutation O (map id (tasks s))).
  { rewrite HO, map_app. cbn [map].
    apply Permutation_sym.
    eapply perm_trans; [apply (Permutation_pick _ (id t) Nd), in_map, Ht|].
    rewrite E, map_app. cbn [map]. rewrite filter_app. cbn [filter].
    replace (String.eqb (id a) (id t)) with false by (symmetry; apply String.eqb_neq; congruence).
    cbn [negb]. unfold pre', post0. rewrite !filter_neq_map_id.
    eapply perm_trans; [apply Permutation_middle|].
    apply Permutation_app_head, perm_swap. }
  destruct (reduce_reorder_perm_tasks s O now Nd P) as (L & HL & Hl & Hi).
  assert (EL : L = pre' ++ a :: t :: post0)
    by (apply (ids_determine (tasks s)); [exact Nd|exact Hi|exact Inc|rewrite Hl; exact HO]).
  unfold s', handleMakeActive. fold O. rewrite HL, EL.
  (* the elements are normalized and the prefix is finished *)
  assert (Nall : Forall normalized (pre' ++ a :: t :: post0)).
  { rewrite Forall_forall. intros x Hx. exact (proj1 (Forall_forall _ _) (reachable_normalized s R) x (Inc x Hx)). }
  assert (Tp : terminal_all pre').
  { unfold terminal_all in *. rewrite Forall_forall in Hpre |- *. intros x Hx.
    apply filter_In in Hx as [Hx _]. apply Hpre, Hx. }
  (* the active task is already aligned in [s] *)
  assert (Fa : with_status a (if 0 <? effective_remaining a then in_progress else pending) = a).
  { pose proof (reachable_fixed s R) as Fx. rewrite E in Fx.
    unfold ensureAlignedTasks, realignTaskStatuses in Fx.
    rewrite map_ensureTaskDefaults_id in Fx
      by (apply Forall_app; split; [exact Np|constructor; assumption]).
    rewrite realign_go_terminal_prefix in Fx by exact Hpre. cbn [realign_go] in Fx.
    rewrite Ha in Fx. apply app_inv_head in Fx. injection Fx as Fx _. exact Fx. }
  unfold ensureAlignedTasks, realignTaskStatuses.
  rewrite map_ensureTaskDefaults_id by exact Nall.
  rewrite realign_go_terminal_prefix by exact Tp. cbn [realign_go]. rewrite Ha, Fa.
  exists (if is_terminal t then t else with_status t pending), (realign_go true post0).
  refine (conj _ (conj _ (conj _ _))).
  - destruct (is_terminal t); reflexivity.
  - destruct (is_terminal t); reflexivity.
  - rewrite map_id_realign_go. unfold post0. apply filter_neq_map_id.
  - apply findIndex_at; [exact Tp|rewrite Ha; reflexivity].
Qed.

(** ** Durations in the edit modals *)

Lemma safe_nonneg_num n : 0 <= n -> safe_nonneg (Some (js_num n)) = n.
Proof. intros H. cbn. apply Z.max_r, H. Qed.

(** [combineToSeconds] after [splitSeconds] gives back the whole minutes of
    a finite duration (nothing for a negative one), and [0] for [undefined],
    [NaN] and the infinities. *)
Theorem combine_split_roundtrip (x : option JSNumber) :
  combineToSeconds (Some (fst (splitSeconds x))) (Some (snd (splitSeconds x)))
  = match x with Some (js_num n) => 60 * (Z.max 0 n / 60) | _ => 0 end.
Proof.
  destruct x as [[n| |[|]]|]; try reflexivity.
  cbn [splitSeconds]. destruct (Z.eqb_spec n 0) as [->|_]; [reflexivity|].
  cbn [fst snd]. set (c := Z.max 0 n).
  assert (Hc : 0 <= c) by apply Z.le_max_l.
  pose proof (Z.div_mod c 3600 ltac:(lia)) as D1. pose proof (Z.mod_pos_bound c 3600 ltac:(lia)) as B1.
  set (q := c / 3600) in *. set (r := c mod 3600) in *.
  pose proof (Z.div_mod r 60 ltac:(lia)) as D2. pose proof (Z.mod_pos_bound r 60 ltac:(lia)) as B2.
  set (m := r / 60) in *. set (r' := r mod 60) in *.
  assert (Hq : 0 <= q) by (apply Z.div_pos; lia).
  assert (Hm : 0 <= m) by (apply Z.div_pos; lia).
  assert (E : c / 60 = 60 * q + m) by (symmetry; apply (Z.div_unique c 60 _ r'); lia).
  unfold combineToSeconds. rewrite !safe_nonneg_num by assumption. rewrite E. lia.
Qed.

(** The renderer's modal labels its fields minutes and seconds, but passes
    them to [combineToSeconds] as hours and minutes: the duration saved is
    sixty times the one entered. *)
Theorem desktop_modal_minutes_as_hours (title' : string) (requireTime : bool) (m s : Z) :
  js_trim title' <> EmptyString -> 0 <= m -> 0 <= s -> 0 < 60 * m + s ->
  desktop_handleSubmit title' true requireTime (Some (js_num m)) (Some (js_num s))
  = submitted (js_trim title') (Some (3600 * m + 60 * s)).
Proof.
  intros Ht Hm Hs Hp. unfold desktop_handleSubmit.
  replace (String.eqb (js_trim title') EmptyString) with false
    by (symmetry; apply String.eqb_neq, Ht).
  unfold combineToSeconds. rewrite !safe_nonneg_num by assumption.
  replace (Z.max 0 ((m * 60 + s) * 60)) with (3600 * m + 60 * s) by lia.
  replace (3600 * m + 60 * s <=? 0) with false by (symmetry; apply Z.leb_gt; lia).
  reflexivity.
Qed.

(** Submitting the renderer's modal unchanged, for a task with a budget of
    [n] seconds and the time limit attached: the minutes field holds the
    minutes past the hour and the seconds field is [undefined], so the
    budget saved is those minutes taken as hours, and a budget of whole
    hours is refused. *)
Theorem desktop_modal_resave (title' : string) (requireTime : bool) (n : Z) :
  js_trim title' <> EmptyString -> 0 < n ->
  desktop_handleSubmit title' true requireTime
    (fst (desktop_initial_time (Some (js_num n)))) (snd (desktop_initial_time (Some (js_num n))))
  = if (n mod 3600) / 60 =? 0 then submit_error "Please provide a positive amount of time."
    else submitted (js_trim title') (Some (3600 * ((n mod 3600) / 60))).
Proof.
  intros Ht Hn. unfold desktop_handleSubmit, desktop_initial_time. cbn [fst snd splitSeconds].
  replace (String.eqb (js_trim title') EmptyString) with false
    by (symmetry; apply String.eqb_neq, Ht).
  replace (n =? 0) with false by (symmetry; apply Z.eqb_neq; lia).
  rewrite Z.max_r by lia. cbn [snd].
  pose proof (Z.mod_pos_bound n 3600 ltac:(lia)) as B.
  assert (Hm : 0 <= (n mod 3600) / 60) by (apply Z.div_pos; lia).
  unfold combineToSeconds. rewrite safe_nonneg_num by exact Hm. cbn [safe_nonneg].
  replace (Z.max 0 (((n mod 3600) / 60 * 60 + 0) * 60)) with (3600 * ((n mod 3600) / 60)) by lia.
  destruct (Z.eqb_spec ((n mod 3600) / 60) 0) as [E|E].
  - rewrite E. reflexivity.
  - replace (3600 * ((n mod 3600) / 60) <=? 0) with false by (symmetry; apply Z.leb_gt; lia).
    reflexivity.
Qed.

Lemma clamp_input_bounds hi raw : 0 <= hi -> 0 <= clamp_input hi raw <= hi.
Proof. intros H. destruct raw as [n| |[|]]; cbn; lia. Qed.

Lemma clampDuration_ok h m : pwa_time_ok (clampDuration h m).
Proof.
  unfold clampDuration, pwa_time_ok, MAX_HOURS, MAX_TOTAL_MINUTES. cbn [fst snd].
  assert (H1 : 0 <= safe_nonneg (Some h)) by (destruct h; cbn; lia).
  assert (H2 : 0 <= safe_nonneg (Some m)) by (destruct m; cbn; lia).
  set (l := Z.min 240 (safe_nonneg (Some h) * 60 + safe_nonneg (Some m))).
  assert (Hl : 0 <= l <= 240) by (unfold l; lia).
  pose proof (Z.div_mod l 60 ltac:(lia)) as D. pose proof (Z.mod_pos_bound l 60 ltac:(lia)) as B.
  change (240 / 60) with 4.
  assert (Q : 0 <= l / 60 <= 4) by lia.
  rewrite Z.min_r by lia. lia.
Qed.

Lemma pwa_time_step_ok hm e : pwa_time_ok hm -> pwa_time_ok (pwa_time_step hm e).
Proof.
  destruct hm as [h m]. unfold pwa_time_ok, MAX_HOURS, MAX_TOTAL_MINUTES. cbn [fst snd].
  change (240 / 60) with 4. intros (Hh & Hm & Ht).
  destruct e as [raw|raw]; cbn [pwa_time_step pwa_on_hours pwa_on_minutes];
    (destruct raw as [n| |b]; [| cbn [fst snd]; lia |]);
    unfold MAX_HOURS, MAX_TOTAL_MINUTES; change (240 / 60) with 4;
    match goal with
    | |- context [clamp_input ?hi ?r] =>
        pose proof (clamp_input_bounds hi r ltac:(lia)) as C; set (c := clamp_input hi r) in *
    end;
    match goal with
    | |- context [240 <? ?t] =>
        destruct (Z.ltb_spec 240 t); cbn [fst snd];
        [rewrite Z.min_l by lia; change (240 / 60) with 4; change (240 mod 60) with 0|]; lia
    end.
Qed.

(** Whatever is typed in the PWA modal, its hours and minutes stay within
    [0..4] and [0..59] and never add up to more than 240 minutes. *)
Theorem pwa_time_session_bounds (initialTime : JSNumber * JSNumber) (evs : list PwaTimeEvent) :
  let hm := pwa_time_session initialTime evs in
  0 <= fst hm <= 4 /\ 0 <= snd hm <= 59 /\ fst hm * 60 + snd hm <= 240.
Proof.
  cbv zeta. unfold pwa_time_session.
  assert (I : pwa_time_ok (fold_left pwa_time_step evs
                             (clampDuration (fst initialTime) (snd initialTime)))).
  { generalize (clampDuration_ok (fst initialTime) (snd initialTime)).
    generalize (clampDuration (fst initialTime) (snd initialTime)).
    induction evs as [|e r IH]; intros hm H; [exact H|]. apply IH, pwa_time_step_ok, H. }
  exact I.
Qed.

(** A duration the PWA modal submits is a whole number of minutes between
    one minute and four hours. *)
Theorem pwa_submit_range (initialTime : JSNumber * JSNumber) (evs : list PwaTimeEvent)
    (title' : string) (requireTime : bool) (t : string) (secs : Z) :
  pwa_handleSubmit title' true requireTime (fst (pwa_time_session initialTime evs))
    (snd (pwa_time_session initialTime evs)) = submitted t (Some secs) ->
  60 <= secs <= 14400 /\ secs mod 60 = 0.
Proof.
  destruct (pwa_time_session_bounds initialTime evs) as (Hh & Hm & Ht).
  set (h := fst (pwa_time_session initialTime evs)) in *.
  set (m := snd (pwa_time_session initialTime evs)) in *.
  unfold pwa_handleSubmit, combineToSeconds. rewrite !safe_nonneg_num by lia.
  destruct (String.eqb (js_trim title') EmptyString); [discriminate|].
  replace (Z.max 0 ((h * 60 + m) * 60)) with ((h * 60 + m) * 60) by lia.
  destruct (Z.leb_spec ((h * 60 + m) * 60) 0); [discriminate|].
  intros E. injection E as _ <-. split; [lia|]. apply Z.mod_mul. discriminate.
Qed.

(** ** Witnesses for the properties above *)

Lemma dispatchTick_blocked_active_witness :
  let s := reducer (reducer (createEmptyState "1.0.0" 0) (addTask "a" "first" (Some 60) 0))
             (pauseTask "a" 1) in
  let a := mkTask "a" "first" 0 1 None (Some 60) (Some 60) (Some in_progress) (Some true) [] in
  reachable s /\ findActiveTaskIndex (tasks s) = Some 0%nat /\ nth_error (tasks s) 0 = Some a /\
  (is_paused a = true \/ match remainingSeconds a with Some r => r <= 0 | None => True end) /\
  fst (dispatchTick (s, mkClock (Some 0) 0) 5000) = s.
Proof.
  intros s a.
  assert (HR : reachable s) by (apply reach_step, reach_step, reach_empty).
  assert (HF : findActiveTaskIndex (tasks s) = Some 0%nat) by reflexivity.
  assert (HN : nth_error (tasks s) 0 = Some a) by reflexivity.
  assert (HB : is_paused a = true \/ match remainingSeconds a with Some r => r <= 0 | None => True end)
    by (left; reflexivity).
  exact (conj HR (conj HF (conj HN (conj HB
           (dispatchTick_blocked_active s (mkClock (Some 0) 0) 5000 0 a HR HF HN HB))))).
Defined.

Lemma pauseTask_active_freezes_witness :
  let s := reducer (createEmptyState "1.0.0" 0) (addTask "a" "first" (Some 60) 0) in
  let a := mkTask "a" "first" 0 0 None (Some 60) (Some 60) (Some in_progress) None [] in
  reachable s /\ findActiveTaskIndex (tasks s) = Some 0%nat /\ nth_error (tasks s) 0 = Some a /\
  (let s' := reducer s (pauseTask (id a) 1) in fst (dispatchTick (s', mkClock (Some 0) 0) 5000) = s').
Proof.
  intros s a.
  assert (HR : reachable s) by (apply reach_step, reach_empty).
  assert (HF : findActiveTaskIndex (tasks s) = Some 0%nat) by reflexivity.
  assert (HN : nth_error (tasks s) 0 = Some a) by reflexivity.
  exact (conj HR (conj HF (conj HN
           (pauseTask_active_freezes s 0 a 1 (mkClock (Some 0) 0) 5000 HR HF HN)))).
Defined.

Lemma manualComplete_active_witness :
  let s := reducer (reducer (reducer (reducer (createEmptyState "1.0.0" 0)
             (addTask "a" "first" (Some 10) 0)) (addTask "b" "second" (Some 5) 0))
             (addTask "c" "third" None 0)) (manualComplete 1) in
  let TA := mkTask "a" "first" 0 1 (Some 1) (Some 10) (Some 0) (Some completed) None
              [mkEntry manual_complete (Some 10) 1] in
  let TB := mkTask "b" "second" 0 0 None (Some 5) (Some 5) (Some in_progress) None [] in
  let TC := mkTask "c" "third" 0 0 None None None (Some pending) None [] in
  reachable s /\ tasks s = [TA] ++ TB :: [TC] /\ terminal_all [TA] /\ is_terminal TB = false /\
  (let s' := reducer s (manualComplete 2) in
   tasks s' = [TA] ++ mkTask "b" "second" 0 2 (Some 2) (Some 5) (Some 0) (Some completed) None
                        [mkEntry manual_complete (Some 5) 2] :: realignTaskStatuses [TC] /\
   score s' = score s + 2 /\ stats s' = updateStatsOnCompletion s 2 /\ lastSavedAt (meta s') = 2).
Proof.
  intros s TA TB TC.
  assert (HR : reachable s) by (apply reach_step, reach_step, reach_step, reach_step, reach_empty).
  assert (HE : tasks s = [TA] ++ TB :: [TC]) by reflexivity.
  assert (HT : terminal_all [TA]) by (repeat constructor).
  assert (HA : is_terminal TB = false) by reflexivity.
  exact (conj HR (conj HE (conj HT (conj HA (manualComplete_active s [TA] TB [TC] 2 HR HE HT HA))))).
Defined.

Lemma addTask_appends_witness :
  let s := reducer (createEmptyState "1.0.0" 0) (addTask "a" "first" (Some 10) 0) in
  reachable s /\
  (let s' := reducer s (addTask "b" "second" (Some 30) 1) in
   tasks s' = tasks s ++ [with_status (new_task "b" "second" (Some 30) 1)
                            (if negb (has_live (tasks s)) && (0 <? dflt 0 (Some 30))
                             then in_progress else pending)] /\
   score s' = score s /\ stats s' = stats s /\ lastSavedAt (meta s') = 1).
Proof.
  intros s. assert (HR : reachable s) by (apply reach_step, reach_empty).
  exact (conj HR (addTask_appends s "b" "second" (Some 30) 1 HR)).
Defined.

Lemma deleteTask_active_witness :
  let s := reducer (reducer (reducer (reducer (createEmptyState "1.0.0" 0)
             (addTask "a" "first" (Some 10) 0)) (addTask "b" "second" (Some 5) 0))
             (addTask "c" "third" None 0)) (manualComplete 1) in
  let TA := mkTask "a" "first" 0 1 (Some 1) (Some 10) (Some 0) (Some completed) None
              [mkEntry manual_complete (Some 10) 1] in
  let TB := mkTask "b" "second" 0 0 None (Some 5) (Some 5) (Some in_progress) None [] in
  let TC := mkTask "c" "third" 0 0 None None None (Some pending) None [] in
  reachable s /\ NoDup (map id (tasks s)) /\ tasks s = [TA] ++ TB :: [TC] /\ terminal_all [TA] /\
  is_terminal TB = false /\
  tasks (reducer s (deleteTask (id TB) 2)) = [TA] ++ realignTaskStatuses [TC].
Proof.
  intros s TA TB TC.
  assert (HR : reachable s) by (apply reach_step, reach_step, reach_step, reach_step, reach_empty).
  assert (HD : NoDup (map id (tasks s))).
  { change (NoDup ["a"; "b"; "c"]%string).
    repeat constructor; cbn; intuition discriminate. }
  assert (HE : tasks s = [TA] ++ TB :: [TC]) by reflexivity.
  assert (HT : terminal_all [TA]) by (repeat constructor).
  assert (HA : is_terminal TB = false) by reflexivity.
  exact (conj HR (conj HD (conj HE (conj HT (conj HA
           (deleteTask_active s [TA] TB [TC] 2 HR HD HE HT HA)))))).
Defined.

Lemma reorderTasks_permutation_witness :
  let s := reducer (reducer (reducer (createEmptyState "1.0.0" 0)
             (addTask "a" "first" (Some 10) 0)) (addTask "b" "second" (Some 5) 0))
             (addTask "c" "third" None 0) in
  NoDup (map id (tasks s)) /\
  Permutation (map id (tasks (reducer s (reorderTasks ["c"; "x"; "c"]%string 1)))) (map id (tasks s)).
Proof.
  intros s.
  assert (HD : NoDup (map id (tasks s))).
  { change (NoDup ["a"; "b"; "c"]%string).
    repeat constructor; cbn; intuition discriminate. }
  exact (conj HD (reorderTasks_permutation s ["c"; "x"; "c"]%string 1 HD)).
Defined.

Lemma reorderTasks_exact_witness :
  let s := reducer (reducer (reducer (createEmptyState "1.0.0" 0)
             (addTask "a" "first" (Some 10) 0)) (addTask "b" "second" (Some 5) 0))
             (addTask "c" "third" None 0) in
  NoDup (map id (tasks s)) /\ Permutation ["c"; "a"; "b"]%string (map id (tasks s)) /\
  map id (tasks (reducer s (reorderTasks ["c"; "a"; "b"]%string 1))) = ["c"; "a"; "b"]%string.
Proof.
  intros s.
  assert (HD : NoDup (map id (tasks s))).
  { change (NoDup ["a"; "b"; "c"]%string).
    repeat constructor; cbn; intuition discriminate. }
  assert (HP : Permutation ["c"; "a"; "b"]%string (map id (tasks s)))
    by exact (Permutation_cons_append ["a"; "b"]%string "c"%string).
  exact (conj HD (conj HP (reorderTasks_exact s ["c"; "a"; "b"]%string 1 HD HP))).
Defined.

Lemma handleMakeActive_next_witness :
  let s := reducer (reducer (reducer (reducer (createEmptyState "1.0.0" 0)
             (addTask "a" "first" (Some 10) 0)) (addTask "b" "second" (Some 5) 0))
             (addTask "c" "third" None 0)) (manualComplete 1) in
  let TA := mkTask "a" "first" 0 1 (Some 1) (Some 10) (Some 0) (Some completed) None
              [mkEntry manual_complete (Some 10) 1] in
  let TB := mkTask "b" "second" 0 0 None (Some 5) (Some 5) (Some in_progress) None [] in
  let TC := mkTask "c" "third" 0 0 None None None (Some pending) None [] in
  reachable s /\ NoDup (map id (tasks s)) /\ tasks s = [TA] ++ TB :: [TC] /\ terminal_all [TA] /\
  is_terminal TB = false /\ In TA (tasks s) /\ id TA <> id TB /\
  (let s' := handleMakeActive s TA 2 in
   let pre' := filter (fun x => negb (String.eqb (id x) (id TA))) [TA] in
   exists t' post',
     tasks s' = pre' ++ TB :: t' :: post' /\ id t' = id TA /\
     map id post' = filter (fun x => negb (String.eqb x (id TA))) (map id [TC]) /\
     findActiveTaskIndex (tasks s') = Some (List.length pre')).
Proof.
  intros s TA TB TC.
  assert (HR : reachable s) by (apply reach_step, reach_step, reach_step, reach_step, reach_empty).
  assert (HD : NoDup (map id (tasks s))).
  { change (NoDup ["a"; "b"; "c"]%string).
    repeat constructor; cbn; intuition discriminate. }
  assert (HE : tasks s = [TA] ++ TB :: [TC]) by reflexivity.
  assert (HT : terminal_all [TA]) by (repeat constructor).
  assert (HA : is_terminal TB = false) by reflexivity.
  assert (HI : In TA (tasks s)) by (rewrite HE; left; reflexivity).
  assert (HN : id TA <> id TB) by discriminate.
  exact (conj HR (conj HD (conj HE (conj HT (conj HA (conj HI (conj HN
           (handleMakeActive_next s [TA] TB [TC] TA 2 HR HD HE HT HA HI HN)))))))).
Defined.

Lemma desktop_modal_minutes_as_hours_witness :
  js_trim " Write report " <> EmptyString /\
  desktop_handleSubmit " Write report " true false (Some (js_num 5)) (Some (js_num 30))
  = submitted (js_trim " Write report ") (Some (3600 * 5 + 60 * 30)).
Proof.
  assert (H : js_trim " Write report " <> EmptyString) by (vm_compute; discriminate).
  split; [exact H|].
  apply (desktop_modal_minutes_as_hours " Write report " false 5 30 H); lia.
Defined.

Lemma desktop_modal_resave_witness :
  js_trim "Stretch" <> EmptyString /\
  desktop_handleSubmit "Stretch" true false
    (fst (desktop_initial_time (Some (js_num 300)))) (snd (desktop_initial_time (Some (js_num 300))))
  = if (300 mod 3600) / 60 =? 0 then submit_error "Please provide a positive amount of time."
    else submitted (js_trim "Stretch") (Some (3600 * ((300 mod 3600) / 60))).
Proof.
  assert (H : js_trim "Stretch" <> EmptyString) by (vm_compute; discriminate).
  split; [exact H|].
  apply (desktop_modal_resave "Stretch" false 300 H). lia.
Defined.

Lemma pwa_submit_range_witness :
  pwa_handleSubmit "Stretch" true false
    (fst (pwa_time_session (js_num 1, js_num 30) [hours_input (js_num 9); minutes_input (js_num 15)]))
    (snd (pwa_time_session (js_num 1, js_num 30) [hours_input (js_num 9); minutes_input (js_num 15)]))
  = submitted "Stretch" (Some 14400) /\
  60 <= 14400 <= 14400 /\ 14400 mod 60 = 0.
Proof.
  assert (H : pwa_handleSubmit "Stretch" true false
    (fst (pwa_time_session (js_num 1, js_num 30) [hours_input (js_num 9); minutes_input (js_num 15)]))
    (snd (pwa_time_session (js_num 1, js_num 30) [hours_input (js_num 9); minutes_input (js_num 15)]))
    = submitted "Stretch" (Some 14400)) by (vm_compute; reflexivity).
  exact (conj H (pwa_submit_range (js_num 1, js_num 30)
                   [hours_input (js_num 9); minutes_input (js_num 15)] "Stretch" false "Stretch" 14400 H)).
Defined.
